(** * Synapse (InsightSentinel): the agent orchestration engine

    A shallow embedding of the agent core of the repository: the
    orchestrator loop of [AgentOrchestrator.run], the retry loop of
    [BaseCrawler._request_with_retry], [RetryManager.get_strategy], the
    model-routing rule, and the streaming client [AgentService] of the
    front end. *)

From Stdlib Require Import ZArith Lia.
From stdpp Require Import base decidable option list strings pretty countable gmap.

Local Open Scope Z_scope.

(** ** Python exceptions

    The exception classes declared by the crawler design (section 6.1),
    and one constructor for every other Python exception, by class name. *)
Inductive Exception : Type :=
| CrawlerException (msg : string)
| RateLimitedException
| BlockedException
| CaptchaException
| ParseException
| OtherException (class_name : string).

(** What a [raise] can throw: an instance of [Exception], or an instance
    of one of the classes beside it under [BaseException]
    ([asyncio.CancelledError], [KeyboardInterrupt], [SystemExit],
    [GeneratorExit]), which an [except Exception] clause does not
    catch. *)
Inductive BaseException : Type :=
| IsException (e : Exception)
| NotException (class_name : string).

(** ** The agent state machine and its data *)
Module Agent.

Inductive AgentPhase : Type :=
| IDLE | PLANNING | EXECUTING | SEARCHING | SCRAPING | EXPANDING
| CRITIQUING | SYNTHESIZING | RECOVERING | COMPLETED | FAILED.

(** [ThoughtStep]: the timestamp is kept as a number of milliseconds and a
    tool call as its dictionary of string fields. *)
Record ThoughtStep : Type := mkThoughtStep {
  step_id : string;
  phase : AgentPhase;
  timestamp : Z;
  thought : string;
  action : option string;
  observation : option string;
  tool_calls : list (gmap string string);
  tokens_used : Z;
  duration_ms : Z
}.

(** [AgentState], with the defaults of the class in [new_state].  A score,
    a Python float, is kept as the number of thousandths. *)
Record AgentState : Type := mkAgentState {
  task_id : string;
  original_command : string;
  current_phase : AgentPhase;
  thought_chain : list ThoughtStep;
  discovered_keywords : list string;
  pending_searches : list string;
  collected_data : list (gmap string string);
  credibility_scores : gmap string Z;
  total_tokens : Z;
  error_count : Z;
  max_steps : Z;
  current_step : Z
}.

Definition new_state (tid command : string) : AgentState :=
  {| task_id := tid; original_command := command; current_phase := PLANNING;
     thought_chain := []; discovered_keywords := []; pending_searches := [];
     collected_data := []; credibility_scores := ∅; total_tokens := 0;
     error_count := 0; max_steps := 10; current_step := 0 |}.

Definition set_current_step (n : Z) (s : AgentState) : AgentState :=
  {| task_id := task_id s; original_command := original_command s;
     current_phase := current_phase s; thought_chain := thought_chain s;
     discovered_keywords := discovered_keywords s;
     pending_searches := pending_searches s;
     collected_data := collected_data s;
     credibility_scores := credibility_scores s;
     total_tokens := total_tokens s; error_count := error_count s;
     max_steps := max_steps s; current_step := n |}.

Definition set_pending_searches (q : list string) (s : AgentState) : AgentState :=
  {| task_id := task_id s; original_command := original_command s;
     current_phase := current_phase s; thought_chain := thought_chain s;
     discovered_keywords := discovered_keywords s;
     pending_searches := q;
     collected_data := collected_data s;
     credibility_scores := credibility_scores s;
     total_tokens := total_tokens s; error_count := error_count s;
     max_steps := max_steps s; current_step := current_step s |}.

Definition set_discovered_keywords (d : list string) (s : AgentState)
  : AgentState :=
  {| task_id := task_id s; original_command := original_command s;
     current_phase := current_phase s; thought_chain := thought_chain s;
     discovered_keywords := d;
     pending_searches := pending_searches s;
     collected_data := collected_data s;
     credibility_scores := credibility_scores s;
     total_tokens := total_tokens s; error_count := error_count s;
     max_steps := max_steps s; current_step := current_step s |}.

(** What one sub-generator ([_plan], [_execute_step], [_expand_search],
    [_critique], [_synthesize], [_recover]) does when it is drained by
    [async for step in ...: yield step]: it yields some steps, leaves the
    shared state object in some state, and either finishes or raises. *)
Record Outcome : Type := mkOutcome {
  out_state : AgentState;
  out_steps : list ThoughtStep;
  out_raised : option BaseException
}.

(** The calls the orchestrator makes, each with the state object it hands
    over; [Pop] is [state.pending_searches.pop(0)]. *)
Inductive Call : Type :=
| CallPlan (s : AgentState)
| CallExecute (s : AgentState)
| Pop (keyword : string)
| CallExpand (s : AgentState) (keyword : string)
| CallCritique (s : AgentState)
| CallSynthesize (s : AgentState)
| CallRecover (s : AgentState) (e : Exception).

Definition is_execute (c : Call) : bool :=
  match c with CallExecute _ => true | _ => false end.
Definition is_expand (c : Call) : bool :=
  match c with CallExpand _ _ => true | _ => false end.
Definition is_pop (c : Call) : bool :=
  match c with Pop _ => true | _ => false end.

(** How the [while] loop of [run] was left. *)
Inductive LoopExit : Type :=
| BudgetReached           (* the loop condition failed *)
| QueueEmpty              (* [break] *)
| Raised (e : BaseException). (* a sub-generator raised *)

Record LoopResult : Type := mkLoopResult {
  loop_state : AgentState;
  loop_steps : list ThoughtStep;
  loop_calls : list Call;
  loop_exit : LoopExit
}.

(** One run of the loop body, after the loop condition held. *)
Inductive BodyExit : Type :=
| NextIteration | Break | BodyRaised (e : BaseException).

Record BodyResult : Type := mkBodyResult {
  body_state : AgentState;
  body_steps : list ThoughtStep;
  body_calls : list Call;
  body_exit : BodyExit
}.

(** Number of calls of one kind in a call log. *)
Fixpoint count_calls (f : Call -> bool) (l : list Call) : nat :=
  match l with
  | [] => O
  | c :: l' => ((if f c then 1 else 0) + count_calls f l')%nat
  end.

(** The calls of the [except Exception as e] clause of [run], on the
    state object [s], for what was raised inside the [try]. *)
Definition handler_calls (s : AgentState) (raised : BaseException)
  : list Call :=
  match raised with
  | IsException e => [CallRecover s e]
  | NotException _ => []
  end.

(** Fuel that suffices for the loop of [run] when the sub-generators leave
    the two counters alone. *)
Definition budget (s : AgentState) : nat :=
  Z.to_nat (max_steps s - current_step s).

Section Orchestrator.

(** The step executor's generators are not part of the design text; the
    orchestrator is modelled over any of them. *)
Variable _plan : AgentState -> string -> Outcome.
Variable _execute_step : AgentState -> Outcome.
Variable _expand_search : AgentState -> string -> Outcome.
Variable _critique : AgentState -> Outcome.
Variable _synthesize : AgentState -> Outcome.
Variable _recover : AgentState -> Exception -> Outcome.

(** The body of [while state.current_step < state.max_steps]. *)
Definition loop_body (state : AgentState) : BodyResult :=
  let state1 := set_current_step (current_step state + 1) state in
  let r1 := _execute_step state1 in
  match out_raised r1 with
  | Some e =>
      mkBodyResult (out_state r1) (out_steps r1) [CallExecute state1]
                   (BodyRaised e)
  | None =>
      match pending_searches (out_state r1) with
      | keyword :: rest =>
          let state2 := set_pending_searches rest (out_state r1) in
          let r2 := _expand_search state2 keyword in
          mkBodyResult (out_state r2) (out_steps r1 ++ out_steps r2)
            [CallExecute state1; Pop keyword; CallExpand state2 keyword]
            match out_raised r2 with
            | Some e => BodyRaised e
            | None => NextIteration
            end
      | [] =>
          mkBodyResult (out_state r1) (out_steps r1) [CallExecute state1]
                       Break
      end
  end.

(** The [while] loop; [None] when the fuel runs out. *)
Fixpoint run_loop (fuel : nat) (state : AgentState) : option LoopResult :=
  if bool_decide (current_step state < max_steps state) then
    match fuel with
    | O => None
    | S fuel' =>
        let b := loop_body state in
        match body_exit b with
        | NextIteration =>
            match run_loop fuel' (body_state b) with
            | Some r =>
                Some (mkLoopResult (loop_state r)
                        (body_steps b ++ loop_steps r)
                        (body_calls b ++ loop_calls r) (loop_exit r))
            | None => None
            end
        | Break =>
            Some (mkLoopResult (body_state b) (body_steps b) (body_calls b)
                               QueueEmpty)
        | BodyRaised e =>
            Some (mkLoopResult (body_state b) (body_steps b) (body_calls b)
                               (Raised e))
        end
    end
  else Some (mkLoopResult state [] [] BudgetReached).

(** The result of draining [run]: the steps it yields, the calls it
    makes, the state object at the end, and what leaves the generator
    ([None] when it finishes). *)
Record RunResult : Type := mkRunResult {
  run_state : AgentState;
  run_steps : list ThoughtStep;
  run_calls : list Call;
  run_raised : option BaseException
}.

(** [except Exception as e]: an [Exception] is handed to [_recover],
    and what [_recover] raises leaves the generator; anything else that
    was raised is not caught and leaves the generator as it is. *)
Definition recovering (s0 : AgentState) (steps : list ThoughtStep)
    (calls : list Call) (raised : BaseException) : RunResult :=
  match raised with
  | IsException e =>
      let r := _recover s0 e in
      mkRunResult (out_state r) (steps ++ out_steps r)
                  (calls ++ [CallRecover s0 e]) (out_raised r)
  | NotException _ => mkRunResult s0 steps calls (Some raised)
  end.

(** [AgentOrchestrator.run]. *)
Definition run (fuel : nat) (tid command : string) : option RunResult :=
  let state := new_state tid command in
  let p := _plan state command in
  match out_raised p with
  | Some e =>
      Some (recovering (out_state p) (out_steps p) [CallPlan state] e)
  | None =>
      match run_loop fuel (out_state p) with
      | None => None
      | Some l =>
          let steps1 := out_steps p ++ loop_steps l in
          let calls1 := CallPlan state :: loop_calls l in
          match loop_exit l with
          | Raised e => Some (recovering (loop_state l) steps1 calls1 e)
          | _ =>
              let c := _critique (loop_state l) in
              let steps2 := steps1 ++ out_steps c in
              let calls2 := calls1 ++ [CallCritique (loop_state l)] in
              match out_raised c with
              | Some e => Some (recovering (out_state c) steps2 calls2 e)
              | None =>
                  let y := _synthesize (out_state c) in
                  let steps3 := steps2 ++ out_steps y in
                  let calls3 := calls2 ++ [CallSynthesize (out_state c)] in
                  match out_raised y with
                  | Some e =>
                      Some (recovering (out_state y) steps3 calls3 e)
                  | None =>
                      Some (mkRunResult (out_state y) steps3 calls3 None)
                  end
              end
          end
      end
  end.

End Orchestrator.

(** What the loop guarantees once the fuel covers the remaining budget. *)
Definition loop_post (s : AgentState) (r : LoopResult) : Prop :=
  (count_calls is_execute (loop_calls r) <= budget s)%nat
  /\ (count_calls is_expand (loop_calls r)
      <= count_calls is_execute (loop_calls r))%nat
  /\ count_calls is_pop (loop_calls r) = count_calls is_expand (loop_calls r)
  /\ max_steps (loop_state r) = max_steps s
  /\ match loop_exit r with
     | BudgetReached =>
         max_steps s <= current_step (loop_state r)
         /\ count_calls is_execute (loop_calls r) = budget s
     | QueueEmpty => pending_searches (loop_state r) = []
     | Raised _ => True
     end.

(** *** A concrete step executor

    Used to run the orchestrator: the planner takes a step budget of two
    from the request options and queues six keywords; executing and
    expanding yield one step each and discover nothing. *)
Definition add_thought (st : ThoughtStep) (s : AgentState) : AgentState :=
  {| task_id := task_id s; original_command := original_command s;
     current_phase := phase st; thought_chain := thought_chain s ++ [st];
     discovered_keywords := discovered_keywords s;
     pending_searches := pending_searches s;
     collected_data := collected_data s;
     credibility_scores := credibility_scores s;
     total_tokens := total_tokens s + tokens_used st;
     error_count := error_count s;
     max_steps := max_steps s; current_step := current_step s |}.

Definition set_max_steps (n : Z) (s : AgentState) : AgentState :=
  {| task_id := task_id s; original_command := original_command s;
     current_phase := current_phase s; thought_chain := thought_chain s;
     discovered_keywords := discovered_keywords s;
     pending_searches := pending_searches s;
     collected_data := collected_data s;
     credibility_scores := credibility_scores s;
     total_tokens := total_tokens s; error_count := error_count s;
     max_steps := n; current_step := current_step s |}.

Definition emit (p : AgentPhase) (text : string) (s : AgentState) : Outcome :=
  let st := mkThoughtStep (task_id s) p 0 text None None [] 1 0 in
  mkOutcome (add_thought st s) [st] None.

Definition six_keywords : list string :=
  ["k1"; "k2"; "k3"; "k4"; "k5"; "k6"]%string.

Definition demo_plan (s : AgentState) (command : string) : Outcome :=
  emit PLANNING command
       (set_pending_searches six_keywords (set_max_steps 2 s)).
Definition demo_execute (s : AgentState) : Outcome :=
  emit EXECUTING "sub-task" s.
Definition demo_expand (s : AgentState) (keyword : string) : Outcome :=
  emit EXPANDING keyword s.
Definition demo_critique (s : AgentState) : Outcome :=
  emit CRITIQUING "critique" s.
Definition demo_synthesize (s : AgentState) : Outcome :=
  emit SYNTHESIZING "synthesize" s.
Definition demo_recover (s : AgentState) (e : Exception) : Outcome :=
  emit RECOVERING "recover" s.

Definition demo_run : option RunResult :=
  run demo_plan demo_execute demo_expand demo_critique demo_synthesize
      demo_recover 2 "task_001" "Monitor X".

(** *** Kinds of calls, for statements about whole runs *)
Definition is_plan (c : Call) : bool :=
  match c with CallPlan _ => true | _ => false end.
Definition is_critique (c : Call) : bool :=
  match c with CallCritique _ => true | _ => false end.
Definition is_synthesize (c : Call) : bool :=
  match c with CallSynthesize _ => true | _ => false end.

(** The calls made inside the loop. *)
Definition is_loop_call (c : Call) : bool :=
  is_execute c || is_pop c || is_expand c.

(** A planner that queues nothing and an executor that discovers
    nothing, for runs without keywords. *)
Definition quiet_plan (s : AgentState) (command : string) : Outcome :=
  emit PLANNING command s.

Definition quiet_run : option RunResult :=
  run quiet_plan demo_execute demo_expand demo_critique demo_synthesize
      demo_recover 10 "task_002" "Monitor X".

End Agent.

(** ** The crawler's retry loop *)
Module Crawler.

(** What one pass through the [try] block of [_request_with_retry]
    meets.  [RaisedBefore]: [proxy_pool.get], [get_headers],
    [rate_limiter.wait] or the opening of the session raised, before any
    request.  [RequestRaised]: [session.request] raised.  [Responded]: a
    response with its HTTP status; [json] is what [await response.json()]
    does, read for a 200 only: it raises, or returns the decoded document,
    [None] for the JSON document [null], any other document kept as its
    text; [mark_failed] is what [proxy_pool.mark_failed] raises, if
    anything, called for a 403 only. *)
Inductive Attempt : Type :=
| RaisedBefore (e : Exception)
| RequestRaised (e : Exception)
| Responded (status : Z) (json : Exception + option string)
            (mark_failed : option Exception).

(** The proxy the pool hands out and what the request meets, by attempt. *)
Record World : Type := mkWorld {
  proxy_at : nat -> string;
  outcome_at : nat -> Attempt
}.

(** [Send]: [session.request] was called. *)
Inductive Effect : Type :=
| Send (attempt : nat) (proxy : string)
| MarkFailed (proxy : string)
| Sleep (seconds : Z).

(** [Returned None] is Python's [None]. *)
Inductive Result : Type :=
| Returned (v : option string)
| Raise (e : Exception).

(** How the [try] block of an attempt ends: with the value it returns or
    with what it raises. *)
Definition try_result (a : Attempt) : Result :=
  match a with
  | RaisedBefore e => Raise e
  | RequestRaised e => Raise e
  | Responded status json mark_failed =>
      if bool_decide (status = 200) then
        match json with
        | inr v => Returned v
        | inl e => Raise e
        end
      else if bool_decide (status = 403) then
        match mark_failed with
        | Some e => Raise e
        | None => Raise RateLimitedException
        end
      else Raise (CrawlerException ("HTTP " +:+ pretty status))
  end.

(** What the [try] block of an attempt does on the way. *)
Definition try_effects (attempt : nat) (proxy : string) (a : Attempt)
  : list Effect :=
  match a with
  | RaisedBefore _ => []
  | RequestRaised _ => [Send attempt proxy]
  | Responded status _ _ =>
      if bool_decide (status = 403)
      then [Send attempt proxy; MarkFailed proxy]
      else [Send attempt proxy]
  end.

(** The iterations [attempt, attempt + 1, ...] of
    [for attempt in range(max_retries)], [remaining] of them: the [try]
    block, and the [except RateLimitedException] clause with its sleep. *)
Fixpoint retry_from (w : World) (attempt remaining : nat)
  : Result * list Effect :=
  match remaining with
  | O => (Returned None, [])
  | S remaining' =>
      let a := outcome_at w attempt in
      let effs := try_effects attempt (proxy_at w attempt) a in
      match try_result a with
      | Raise RateLimitedException =>
          let '(r, rest) := retry_from w (S attempt) remaining' in
          (r, effs ++ Sleep (2 ^ Z.of_nat attempt) :: rest)
      | r => (r, effs)
      end
  end.

(** [BaseCrawler._request_with_retry]; [max_retries] defaults to 3. *)
Definition _request_with_retry (w : World) (max_retries : Z)
  : Result * list Effect :=
  retry_from w O (Z.to_nat max_retries).

Definition default_max_retries : Z := 3.

Definition is_send (e : Effect) : bool :=
  match e with Send _ _ => true | _ => false end.

(** Number of requests sent. *)
Fixpoint count_sends (l : list Effect) : nat :=
  match l with
  | [] => O
  | e :: l' => ((if is_send e then 1 else 0) + count_sends l')%nat
  end.

Definition sleeps (l : list Effect) : list Z :=
  omap (fun e => match e with Sleep n => Some n | _ => None end) l.

(** A server that answers every request with the given status, with an
    empty JSON object for body, and a proxy pool that does not fail. *)
Definition always (status : Z) : World :=
  mkWorld (fun i => "proxy" +:+ pretty i)
          (fun _ => Responded status (inr (Some "{}")) None).

(** An attempt that ends in the [except RateLimitedException] clause: a
    403 answer after which [mark_failed] raised nothing else, or the
    exception raised elsewhere in the [try] block. *)
Definition rate_limited (a : Attempt) : bool :=
  match try_result a with
  | Raise RateLimitedException => true
  | _ => false
  end.

(** An attempt that got as far as [session.request]. *)
Definition requested (a : Attempt) : bool :=
  match a with
  | RaisedBefore _ => false
  | _ => true
  end.

(** The proxies handed to [mark_failed], in order. *)
Definition marked (l : list Effect) : list string :=
  omap (fun e => match e with MarkFailed p => Some p | _ => None end) l.

Definition is_403 (a : Attempt) : bool :=
  match a with
  | Responded status _ _ => bool_decide (status = 403)
  | _ => false
  end.

Definition total (l : list Z) : Z := foldr Z.add 0 l.

(** The requests sent and the proxies marked over a range of attempts. *)
Definition requests (w : World) (attempt n : nat) : nat :=
  length (filter (fun i => requested (outcome_at w i) = true) (seq attempt n)).

Definition marks (w : World) (attempt n : nat) : list string :=
  proxy_at w <$> filter (fun i => is_403 (outcome_at w i) = true) (seq attempt n).

(** A server that answers 403, then a rate limiter that raises
    [RateLimitedException] before the second request, then a 200. *)
Definition recovers_at_third : World :=
  mkWorld (fun i => "proxy" +:+ pretty i)
    (fun i =>
       match i with
       | O => Responded 403 (inr (Some "{}")) None
       | S O => RaisedBefore RateLimitedException
       | _ => Responded 200 (inr (Some "{}")) None
       end).

(** A server that answers 200 with the JSON document [null]. *)
Definition answers_null : World :=
  mkWorld (fun i => "proxy" +:+ pretty i)
          (fun _ => Responded 200 (inr None) None).

End Crawler.

(** ** Error recovery: [RetryManager] *)
Module Resilience.

(** The error types of the classification table (section 7.1). *)
Inductive ErrorType : Type :=
| API_RATE_LIMIT | API_TIMEOUT | CRAWLER_BLOCKED | CRAWLER_CAPTCHA
| NETWORK_ERROR.

Inductive RecoveryStrategy : Type :=
| ExponentialBackoffStrategy
| SwitchProxyStrategy
| FallbackCrawlerStrategy.

#[global] Instance ErrorType_eq_dec : EqDecision ErrorType.
Proof. solve_decision. Defined.

Definition ErrorType_code (t : ErrorType) : nat :=
  match t with
  | API_RATE_LIMIT => 0 | API_TIMEOUT => 1 | CRAWLER_BLOCKED => 2
  | CRAWLER_CAPTCHA => 3 | NETWORK_ERROR => 4
  end%nat.

Definition ErrorType_of_code (n : nat) : ErrorType :=
  match n with
  | 0 => API_RATE_LIMIT | 1 => API_TIMEOUT | 2 => CRAWLER_BLOCKED
  | 3 => CRAWLER_CAPTCHA | _ => NETWORK_ERROR
  end%nat.

#[global] Instance ErrorType_countable : Countable ErrorType.
Proof.
  apply (inj_countable' ErrorType_code ErrorType_of_code).
  intros []; reflexivity.
Defined.

(** [RetryManager.STRATEGIES]. *)
Definition STRATEGIES : gmap ErrorType (list RecoveryStrategy) :=
  <[API_RATE_LIMIT := [ExponentialBackoffStrategy]]>
  (<[CRAWLER_BLOCKED := [SwitchProxyStrategy; FallbackCrawlerStrategy]]> ∅).

(** [RetryManager.get_strategy].  [_classify_error] is not part of the
    design text: it is a parameter, and answers [None] for an error it
    maps to no member of [ErrorType].  The result is [None] where [[0]]
    would raise [IndexError]. *)
Definition get_strategy (_classify_error : Exception -> option ErrorType)
    (error : Exception) : option RecoveryStrategy :=
  let error_type := _classify_error error in
  let strategies :=
    match error_type with
    | Some t => default [ExponentialBackoffStrategy] (STRATEGIES !! t)
    | None => [ExponentialBackoffStrategy]
    end in
  head strategies.

(** A classifier by exception class, after the trigger column of the
    classification table. *)
Definition classify_by_class (e : Exception) : option ErrorType :=
  match e with
  | RateLimitedException => Some API_RATE_LIMIT
  | BlockedException => Some CRAWLER_BLOCKED
  | CaptchaException => Some CRAWLER_CAPTCHA
  | OtherException "TimeoutError" => Some API_TIMEOUT
  | OtherException "ConnectionError" => Some NETWORK_ERROR
  | _ => None
  end.

End Resilience.

(** ** Model routing *)
Module Router.

Inductive Tier : Type := Light | Heavy.

Definition light_tasks : list string :=
  ["filter"; "classify"; "extract_keywords"; "simple_qa"].

Definition heavy_tasks : list string :=
  ["critical_review"; "deep_analysis"; "synthesis"].

(** Python's [len] of a [str] kept as the UTF-8 bytes of its text: the
    number of its code points, one for each byte that is not a
    continuation byte (10xxxxxx). *)
Fixpoint len (content : string) : Z :=
  match content with
  | EmptyString => 0
  | String c rest =>
      let n := Ascii.nat_of_ascii c in
      (if bool_decide (128 <= n /\ n < 192)%nat then 0 else 1) + len rest
  end.

(** The routing rule as the design writes it: the two task lists are
    declared, and the model is then chosen by the length of the content
    alone. *)
Definition route (task : string) (content : string) : Tier :=
  if bool_decide (5000 < len content) then Heavy
  else Light.

(** A content of [n] characters. *)
Fixpoint content_of_length (n : nat) : string :=
  match n with
  | O => ""
  | S n' => String (Ascii.ascii_of_nat 97) (content_of_length n')
  end.

End Router.

(** ** The streaming client: [agentService.ts] *)
Module Client.

#[local] Set Warnings "-register-all".

(** *** JavaScript values

    What [JSON.parse] returns.  A number is kept as an integer, which
    stands for itself up to 2^53 in magnitude: the payloads carry counts,
    token totals and percentages. *)
Inductive json : Type :=
| JNull
| JBool (b : bool)
| JNum (n : Z)
| JStr (s : string)
| JArr (items : list json)
| JObj (fields : list (string * json)).

(** The result of a property read: [None] is [undefined]. *)
Definition truthy (v : option json) : bool :=
  match v with
  | None => false
  | Some JNull => false
  | Some (JBool b) => b
  | Some (JNum n) => negb (n =? 0)
  | Some (JStr s) => negb (String.eqb s "")
  | Some (JArr _) => true
  | Some (JObj _) => true
  end.

Fixpoint assoc (key : string) (fields : list (string * json)) : option json :=
  match fields with
  | [] => None
  | (k, v) :: rest => if String.eqb k key then Some v else assoc key rest
  end.

(** [o.key] for [o] other than [null]; own properties of strings and
    arrays ([length], indices) are not among the keys read here. *)
Definition get (key : string) (o : json) : option json :=
  match o with
  | JObj fields => assoc key fields
  | _ => None
  end.

(** [x === 'text']. *)
Definition strict_eq_string (v : option json) (text : string) : bool :=
  match v with
  | Some (JStr s) => String.eqb s text
  | _ => false
  end.

(** JavaScript's [ToString]. *)
Fixpoint to_string (j : json) : string :=
  match j with
  | JNull => "null"
  | JBool true => "true"
  | JBool false => "false"
  | JNum n => pretty n
  | JStr s => s
  | JArr items =>
      (fix join (l : list json) : string :=
         match l with
         | [] => ""
         | x :: rest =>
             let sx := match x with JNull => "" | _ => to_string x end in
             match rest with
             | [] => sx
             | _ => sx +:+ "," +:+ join rest
             end
         end) items
  | JObj _ => "[object Object]"
  end.

Definition to_string_value (v : option json) : string :=
  match v with
  | None => "undefined"
  | Some j => to_string j
  end.

(** Whether the conversion of a value to a primitive returns, where it
    otherwise throws a [TypeError].  An object made by [JSON.parse] with
    an own [toString] property hides the method of [Object.prototype]
    behind a value that cannot be called, and [valueOf] gives back the
    object; an array is joined from the conversions of its elements,
    [null] left out. *)
Fixpoint converts (j : json) : bool :=
  match j with
  | JObj fields =>
      match assoc "toString" fields with
      | Some _ => false
      | None => true
      end
  | JArr items => forallb converts items
  | _ => true
  end.

Definition converts_value (v : option json) : bool :=
  match v with
  | None => true
  | Some j => converts j
  end.

(** *** [types.ts] and the phase table *)
Inductive LogLevel : Type := INFO | DEBUG | WARN | EXEC | ALERT | NET.

(** The properties every object inherits from [Object.prototype]; each is
    a function or an object, and so truthy. *)
Definition Object_prototype_keys : list string :=
  ["constructor"; "__defineGetter__"; "__defineSetter__"; "hasOwnProperty";
   "__lookupGetter__"; "__lookupSetter__"; "isPrototypeOf";
   "propertyIsEnumerable"; "toString"; "valueOf"; "__proto__";
   "toLocaleString"].

(** What the [level] of an entry holds at run time: a member of
    [LogLevel], or the property of [Object.prototype] of the given
    name. *)
Inductive LevelValue : Type :=
| Level (l : LogLevel)
| Inherited (key : string).

Record LogEntry : Type := mkLogEntry {
  id : option json;
  timestamp : string;
  level : LevelValue;
  message : option json;
  details : option json;
  progress : option json
}.

Definition PHASE_TO_LEVEL : gmap string LogLevel :=
  list_to_map
    [("idle", DEBUG); ("planning", INFO); ("executing", EXEC);
     ("searching", NET); ("scraping", NET); ("expanding", INFO);
     ("critiquing", WARN); ("synthesizing", EXEC); ("recovering", WARN);
     ("completed", INFO); ("failed", ALERT)].

(** [PHASE_TO_LEVEL[key] || LogLevel.INFO]: the own property, else the
    inherited one, else the default. *)
Definition phase_level (key : string) : LevelValue :=
  match PHASE_TO_LEVEL !! key with
  | Some l => Level l
  | None =>
      if bool_decide (key ∈ Object_prototype_keys) then Inherited key
      else Level INFO
  end.

(** *** String helpers of the JavaScript runtime

    A string is kept as the UTF-8 bytes of its text. *)

(** The white space and line terminators of the language, each as its
    UTF-8 bytes: U+0009 to U+000D, U+0020, U+00A0, U+1680, U+2000 to
    U+200A, U+2028, U+2029, U+202F, U+205F, U+3000 and U+FEFF. *)
Definition white_space : list (list nat) :=
  [[9]; [10]; [11]; [12]; [13]; [32]; [194; 160]; [225; 154; 128];
   [226; 128; 128]; [226; 128; 129]; [226; 128; 130]; [226; 128; 131];
   [226; 128; 132]; [226; 128; 133]; [226; 128; 134]; [226; 128; 135];
   [226; 128; 136]; [226; 128; 137]; [226; 128; 138]; [226; 128; 168];
   [226; 128; 169]; [226; 128; 175]; [226; 129; 159]; [227; 128; 128];
   [239; 187; 191]]%nat.

(** [l] without the prefix [p], when it starts with it. *)
Fixpoint strip_prefix (p l : list nat) : option (list nat) :=
  match p, l with
  | [], _ => Some l
  | x :: p', y :: l' =>
      if bool_decide (x = y) then strip_prefix p' l' else None
  | _ :: _, [] => None
  end.

(** [l] without the one white space it starts with, if any. *)
Definition strip_space (spaces : list (list nat)) (l : list nat)
  : option (list nat) :=
  foldr (fun p acc =>
           match strip_prefix p l with
           | Some l' => Some l'
           | None => acc
           end) None spaces.

Fixpoint trim_start (spaces : list (list nat)) (fuel : nat) (l : list nat)
  : list nat :=
  match fuel with
  | O => l
  | S fuel' =>
      match strip_space spaces l with
      | Some l' => trim_start spaces fuel' l'
      | None => l
      end
  end.

(** [s.trim()]. *)
Definition trim (s : string) : string :=
  let bytes := Ascii.nat_of_ascii <$> String.list_ascii_of_string s in
  let bytes := trim_start white_space (length bytes) bytes in
  let bytes :=
    reverse (trim_start (reverse <$> white_space) (length bytes)
               (reverse bytes)) in
  String.string_of_list_ascii (Ascii.ascii_of_nat <$> bytes).

(** [s.slice(n)] for [n >= 0]. *)
Fixpoint slice (n : nat) (s : string) : string :=
  match n, s with
  | O, _ => s
  | S n', String _ s' => slice n' s'
  | S _, EmptyString => EmptyString
  end.

(** [s.split('\n')]: never empty. *)
Fixpoint split_lines (s : string) : list string :=
  match s with
  | EmptyString => [EmptyString]
  | String c s' =>
      if bool_decide (Ascii.nat_of_ascii c = 10%nat) then
        EmptyString :: split_lines s'
      else
        match split_lines s' with
        | l :: ls => String c l :: ls
        | [] => [String c EmptyString]
        end
  end.

(** *** The callbacks and console calls of [executeWithStream] *)
Inductive Call : Type :=
| OnThought (log : LogEntry)
| OnComplete (task_id total_tokens status : option json)
| OnError (message : string)
| ConsoleWarn (data : string)
| ConsoleLog (text : string).

(** Which of the optional callbacks the caller passed. *)
Record Handlers : Type := mkHandlers {
  has_onComplete : bool;
  has_onError : bool
}.

Record JsError : Type := mkError { name : string; error_message : string }.

Inductive Ending : Type := Done | ReadFailed (e : JsError).

(** The response body as the reader delivers it: decoded chunks, then
    [done] or a rejected [read()]. *)
Record Body : Type := mkBody { chunks : list string; ending : Ending }.

Inductive FetchResult : Type :=
| FetchRejected (e : JsError)
| Response (ok : bool) (status : Z) (statusText : string)
           (body : option Body).

(** *** The service object and its abort controller

    [controllers] is the heap of [AbortController] objects created so
    far, each with its [aborted] flag; [abortController] is the field of
    the service, a reference into it; [streams] lists the signal of every
    streaming [fetch] issued. *)
Record Runtime : Type := mkRuntime {
  controllers : list bool;
  abortController : option nat;
  streams : list nat
}.

Definition fresh : Runtime := mkRuntime [] None [].

(** [AgentService.abort]. *)
Definition abort (rt : Runtime) : Runtime :=
  match abortController rt with
  | Some c => mkRuntime (<[c := true]> (controllers rt)) None (streams rt)
  | None => rt
  end.

(** [executeWithStream] up to its first [await]: abort, a new controller,
    and the [fetch] issued with its signal.  Nothing after that point
    writes the field. *)
Definition begin_stream (rt : Runtime) : Runtime :=
  let rt := abort rt in
  let c := length (controllers rt) in
  mkRuntime (controllers rt ++ [false]) (Some c) (streams rt ++ [c]).

(** The streaming requests whose signal has not been aborted. *)
Definition in_flight (rt : Runtime) : list nat :=
  filter (fun c => controllers rt !! c = Some false) (streams rt).

(** The shapes the runtime takes: every controller aborted and none
    stored, or all but the last aborted and the last one stored. *)
Definition idle_shape (n : nat) : Runtime :=
  mkRuntime (replicate n true) None (seq 0 n).
Definition streaming_shape (n : nat) : Runtime :=
  mkRuntime (replicate n true ++ [false]) (Some n) (seq 0 (S n)).

(** *** Promises and exceptions: how a call completes *)
Inductive Completion (A : Type) : Type :=
| Resolve (a : A)
| Reject (e : JsError).
Arguments Resolve {A} a.
Arguments Reject {A} e.

Definition and_then {A B} (c : Completion A) (k : A -> Completion B)
  : Completion B :=
  match c with
  | Resolve a => k a
  | Reject e => Reject e
  end.

Definition try_catch {A} (c : Completion A) (handler : JsError -> Completion A)
  : Completion A :=
  match c with
  | Resolve a => Resolve a
  | Reject e => handler e
  end.

Definition type_error : JsError := mkError "TypeError" "not an object".

Section Stream.

(** [JSON.parse], [None] for a [SyntaxError]; and the clock: the time of
    day of a given timestamp, or of now for [None]. *)
Variable JSON_parse : string -> option json.
Variable time_of_day : option json -> string.

(** [thoughtToLog]: the entry it returns, when it returns. *)
Definition thoughtToLog (thought : json) : LogEntry :=
  let level := phase_level (to_string_value (get "phase" thought)) in
  let timestamp :=
    if truthy (get "timestamp" thought)
    then time_of_day (get "timestamp" thought)
    else time_of_day None in
  let message := get "thought" thought in
  let message :=
    if truthy (get "action" thought)
    then Some (JStr ("[" +:+ to_string_value (get "action" thought) +:+ "] "
                     +:+ to_string_value message))
    else message in
  mkLogEntry (get "step_id" thought) timestamp level message
             (get "observation" thought) (get "progress" thought).

(** Whether a call of [thoughtToLog] throws: on [null], whose
    properties cannot be read, and on a [phase] (used as a property key),
    a truthy [timestamp] (handed to [new Date]) or the [action] and
    [thought] of a truthy [action] (put into a template) whose
    conversion to a primitive throws. *)
Definition thoughtToLog_throws (thought : json) : bool :=
  match thought with
  | JNull => true
  | _ =>
      negb (converts_value (get "phase" thought))
      || truthy (get "timestamp" thought)
         && negb (converts_value (get "timestamp" thought))
      || truthy (get "action" thought)
         && negb (converts_value (get "action" thought)
                  && converts_value (get "thought" thought))
  end.

(** A call of [thoughtToLog]. *)
Definition thoughtToLog_call (thought : json) : Completion LogEntry :=
  if thoughtToLog_throws thought then Reject type_error
  else Resolve (thoughtToLog thought).

(** The body of the inner [try], after [JSON.parse] returned [parsed];
    reading a property of [null] throws, and so may [thoughtToLog] and
    [new Error(parsed.error)], which the [catch] turns into a warning. *)
Definition dispatch (h : Handlers) (data : string) (parsed : json)
  : list Call :=
  match parsed with
  | JNull => [ConsoleWarn data]
  | _ =>
      if truthy (get "step_id" parsed) then
        match thoughtToLog_call parsed with
        | Resolve log => [OnThought log]
        | Reject _ => [ConsoleWarn data]
        end
      else if truthy (get "task_id" parsed)
              && strict_eq_string (get "status" parsed) "completed" then
        if has_onComplete h then
          [OnComplete (get "task_id" parsed)
             (if truthy (get "total_tokens" parsed)
              then get "total_tokens" parsed else Some (JNum 0))
             (get "status" parsed)]
        else []
      else if truthy (get "error" parsed) then
        if has_onError h then
          if converts_value (get "error" parsed)
          then [OnError (to_string_value (get "error" parsed))]
          else [ConsoleWarn data]
        else []
      else []
  end.

(** One turn of [for (const line of lines)]. *)
Definition process_line (h : Handlers) (line : string) : list Call :=
  if String.prefix "event:" line then []
  else if String.prefix "data:" line then
    let data := trim (slice 5 line) in
    if String.eqb data "" then []
    else
      match JSON_parse data with
      | None => [ConsoleWarn data]
      | Some parsed => dispatch h data parsed
      end
  else [].

(** The [while (true)] loop over the reader's chunks. *)
Fixpoint read_loop (h : Handlers) (buffer : string) (chunks : list string)
  : list Call :=
  match chunks with
  | [] => []
  | value :: rest =>
      let buffer := buffer +:+ value in
      let lines := split_lines buffer in
      let buffer := default "" (last lines) in
      let lines := removelast lines in
      flat_map (process_line h) lines ++ read_loop h buffer rest
  end.

(** The outer [catch]. *)
Definition on_catch (h : Handlers) (e : JsError) : list Call :=
  if String.eqb (name e) "AbortError" then [ConsoleLog "Request aborted"]
  else if has_onError h then [OnError (error_message e)]
  else [].

(** What one [executeWithStream] call does with the answer to its
    [fetch]. *)
Definition stream_calls (h : Handlers) (f : FetchResult) : list Call :=
  match f with
  | FetchRejected e => on_catch h e
  | Response ok status statusText body =>
      if negb ok then
        on_catch h (mkError "Error"
                      ("HTTP " +:+ pretty status +:+ ": " +:+ statusText))
      else
        match body with
        | None => on_catch h (mkError "Error" "No response body")
        | Some b =>
            read_loop h "" (chunks b)
            ++ match ending b with
               | Done => []
               | ReadFailed e => on_catch h e
               end
        end
  end.

(** [AgentService.executeWithStream]: the new runtime, and the calls made
    for the answer [f] the [fetch] gets. *)
Definition executeWithStream (h : Handlers) (f : FetchResult) (rt : Runtime)
  : Runtime * list Call :=
  (begin_stream rt, stream_calls h f).

(** The calls a client makes on the service, in order. *)
Inductive Op : Type :=
| ExecuteWithStream (h : Handlers) (f : FetchResult)
| Abort.

Definition step (rt : Runtime) (op : Op) : Runtime :=
  match op with
  | ExecuteWithStream h f => fst (executeWithStream h f rt)
  | Abort => abort rt
  end.

Definition run_ops (ops : list Op) : Runtime := foldl step fresh ops.

End Stream.

(** *** The documented event stream

    The response of [POST /api/v1/agent/execute] as the API design gives
    it (section 2.1), thought texts in English.  [render] writes a payload
    the way the design prints it; [parse_among] is [JSON.parse] on the
    rendered payloads of a table and a [SyntaxError] elsewhere. *)
Definition dquote : string := String (Ascii.ascii_of_nat 34) EmptyString.
Definition newline : string := String (Ascii.ascii_of_nat 10) EmptyString.

Fixpoint render (j : json) : string :=
  match j with
  | JNull => "null"
  | JBool true => "true"
  | JBool false => "false"
  | JNum n => pretty n
  | JStr s => dquote +:+ s +:+ dquote
  | JArr items =>
      "[" +:+
      (fix join (l : list json) : string :=
         match l with
         | [] => ""
         | x :: rest =>
             render x +:+ match rest with [] => "" | _ => ", " +:+ join rest end
         end) items
      +:+ "]"
  | JObj fields =>
      "{" +:+
      (fix join (l : list (string * json)) : string :=
         match l with
         | [] => ""
         | (k, v) :: rest =>
             dquote +:+ k +:+ dquote +:+ ": " +:+ render v
             +:+ match rest with [] => "" | _ => ", " +:+ join rest end
         end) fields
      +:+ "}"
  end.

Definition parse_among (table : list json) (data : string) : option json :=
  List.find (fun j => String.eqb (render j) data) table.

Definition thought_payload (step phase text action : string) (percent : Z)
  : json :=
  JObj [("step_id", JStr step); ("phase", JStr phase); ("thought", JStr text);
        ("action", JStr action); ("progress", JNum percent)].

Definition documented_thoughts : list json :=
  [thought_payload "task_001_step_1" "planning"
     "Analysing the task: monitor DeepSeek" "decompose_task" 10;
   thought_payload "task_001_step_2" "searching"
     "Searching Zhihu..." "platform_search" 30;
   thought_payload "task_001_step_3" "expanding"
     "New keyword DeepSeek R1 found, searching further..."
     "recursive_search" 50;
   thought_payload "task_001_step_4" "critiquing"
     "Cross-checking credibility..." "critical_evaluation" 80;
   thought_payload "task_001_step_5" "synthesizing"
     "Writing the summary..." "synthesize" 100].

(** The documented [complete] event: task id, item count, total tokens. *)
Definition documented_complete : json :=
  JObj [("task_id", JStr "task_001"); ("intelligence_count", JNum 15);
        ("total_tokens", JNum 2500)].

(** A terminal [failed] event: task id, error kind, message. *)
Definition failed_event : json :=
  JObj [("task_id", JStr "task_001"); ("error_kind", JStr "rate-limited");
        ("message", JStr "retries exhausted")].

Definition sse_event (type : string) (payload : json) : string :=
  "event: " +:+ type +:+ newline +:+ "data: " +:+ render payload
  +:+ newline +:+ newline.

(** One chunk per thought event; the terminal event arrives in two
    chunks, cut inside its data line. *)
Definition stream_body (terminal_type : string) (terminal : json) : Body :=
  mkBody
    ((sse_event "thought" <$> documented_thoughts)
     ++ ["event: " +:+ terminal_type +:+ newline +:+ "data: ";
         render terminal +:+ newline +:+ newline])
    Done.

Definition documented_parse : string -> option json :=
  parse_among (documented_thoughts ++ [documented_complete; failed_event]).

Definition fixed_clock (v : option json) : string := "10:00:00".

Definition all_handlers : Handlers := mkHandlers true true.

Definition documented_run : list Call :=
  snd (executeWithStream documented_parse fixed_clock all_handlers
         (Response true 200 "OK"
            (Some (stream_body "complete" documented_complete)))
         fresh).

Definition failed_run : list Call :=
  snd (executeWithStream documented_parse fixed_clock all_handlers
         (Response true 200 "OK" (Some (stream_body "failed" failed_event)))
         fresh).

Definition is_onComplete (c : Call) : bool :=
  match c with OnComplete _ _ _ => true | _ => false end.
Definition is_onError (c : Call) : bool :=
  match c with OnError _ => true | _ => false end.

(** *** [healthCheck] *)
Inductive Backend : Type :=
| Responds (latency_ms : Z) (status : Z)
| Unreachable (e : JsError)
| Silent.

(** [fetch] with [signal: AbortSignal.timeout(timeout_ms)]: resolves with
    the status when the answer comes before the timer fires. *)
Definition fetch_with_timeout (timeout_ms : Z) (b : Backend) : Completion Z :=
  match b with
  | Responds latency status =>
      if bool_decide (latency < timeout_ms) then Resolve status
      else Reject (mkError "TimeoutError" "signal timed out")
  | Unreachable e => Reject e
  | Silent => Reject (mkError "TimeoutError" "signal timed out")
  end.

(** [response.ok]. *)
Definition response_ok (status : Z) : bool :=
  bool_decide (200 <= status /\ status <= 299).

(** [AgentService.healthCheck]. *)
Definition healthCheck (b : Backend) : Completion bool :=
  try_catch
    (and_then (fetch_with_timeout 3000 b)
              (fun status => Resolve (response_ok status)))
    (fun _ => Resolve false).

(** *** The text of a body, and what a call may carry *)

(** The chunks of a body, put end to end. *)
Definition join (chunks : list string) : string :=
  foldr String.append EmptyString chunks.

(** A string without a line feed. *)
Definition one_line (s : string) : Prop := split_lines s = [s].

(** What the callbacks can rely on. *)
Definition sound_call (h : Handlers) (c : Call) : Prop :=
  match c with
  | OnThought log => truthy (id log) = true
  | OnComplete task_id total_tokens status =>
      has_onComplete h = true
      /\ truthy task_id = true
      /\ status = Some (JStr "completed")
      /\ (truthy total_tokens = true \/ total_tokens = Some (JNum 0))
  | OnError _ => has_onError h = true
  | ConsoleWarn _ => True
  | ConsoleLog _ => True
  end.

(** *** [executeSync] *)

(** The answer to the [fetch] of [executeSync]: a rejection, or a
    response whose body is JSON ([Some]) or not. *)
Inductive SyncFetch : Type :=
| SyncRejected (e : JsError)
| SyncResponse (ok : bool) (status : Z) (statusText : string)
               (body : option json).

Record SyncResult : Type := mkSyncResult {
  sync_status : option json;
  sync_thought_chain : list LogEntry;
  sync_total_steps : option json;
  sync_total_tokens : option json
}.

(** [data.thought_chain.map((t) => thoughtToLog(t))], from the first
    step on; the first call that throws ends it. *)
Fixpoint map_thoughts (time_of_day : option json -> string)
    (l : list json) : Completion (list LogEntry) :=
  match l with
  | [] => Resolve []
  | t :: rest =>
      and_then (thoughtToLog_call time_of_day t)
        (fun log =>
           and_then (map_thoughts time_of_day rest)
                    (fun logs => Resolve (log :: logs)))
  end.

(** [AgentService.executeSync]. *)
Definition executeSync (time_of_day : option json -> string) (f : SyncFetch)
  : Completion SyncResult :=
  match f with
  | SyncRejected e => Reject e
  | SyncResponse ok status statusText body =>
      if negb ok then
        Reject (mkError "Error"
                  ("HTTP " +:+ pretty status +:+ ": " +:+ statusText))
      else
        match body with
        | None => Reject (mkError "SyntaxError" "Unexpected token")
        | Some JNull => Reject type_error
        | Some data =>
            match get "thought_chain" data with
            | Some (JArr steps) =>
                and_then (map_thoughts time_of_day steps)
                  (fun logs =>
                     Resolve (mkSyncResult (get "status" data) logs
                                (get "total_steps" data)
                                (get "total_tokens" data)))
            | _ => Reject type_error
            end
        end
  end.

End Client.

(** ** The keyword queue *)
Module KeywordQueue.
Import Agent.

Definition is_space (c : Ascii.ascii) : bool :=
  let n := Ascii.nat_of_ascii c in
  bool_decide (n = 32 \/ (9 <= n /\ n <= 13))%nat.

Definition to_lower (c : Ascii.ascii) : Ascii.ascii :=
  let n := Ascii.nat_of_ascii c in
  if bool_decide (65 <= n /\ n <= 90)%nat then Ascii.ascii_of_nat (n + 32)
  else c.

(** Lower-case the letters, drop leading and trailing white space and
    turn every inner run of white space into one space; [gap] says that
    white space was met after the first word. *)
Fixpoint squeeze (started gap : bool) (l : list Ascii.ascii)
  : list Ascii.ascii :=
  match l with
  | [] => []
  | c :: l' =>
      if is_space c then squeeze started started l'
      else
        (if gap then [Ascii.ascii_of_nat 32] else [])
        ++ to_lower c :: squeeze true false l'
  end.

(** Modelled from the spec: the form in which two keywords are compared,
    case-insensitive and whitespace-normalized (section 4.2, edge-case
    policy); the function that compares keywords is not in the design
    text. *)
Definition normalize (k : string) : string :=
  String.string_of_list_ascii
    (squeeze false false (String.list_ascii_of_string k)).

(** Modelled from the spec: a keyword is known when its normal form is
    that of a keyword already seen or already queued. *)
Definition known (k : string) (s : AgentState) : bool :=
  bool_decide
    (normalize k
     ∈ normalize <$> (discovered_keywords s ++ pending_searches s)).

(** Modelled from the spec: the enqueue step of search and expand, which
    the design text leaves out: a candidate keyword is enqueued unless it
    is already seen ([discovered_keywords]) or already queued
    ([pending_searches]) (section 4.2). *)
Definition enqueue (k : string) (s : AgentState) : AgentState :=
  if known k s then s
  else
    set_discovered_keywords (discovered_keywords s ++ [k])
      (set_pending_searches (pending_searches s ++ [k]) s).

(** The orchestrator's [if state.pending_searches: ... pop(0)]. *)
Definition dequeue (s : AgentState) : AgentState :=
  match pending_searches s with
  | _ :: rest => set_pending_searches rest s
  | [] => s
  end.

Inductive QueueOp : Type := Discover (k : string) | Dequeue.

Definition apply_op (s : AgentState) (op : QueueOp) : AgentState :=
  match op with
  | Discover k => enqueue k s
  | Dequeue => dequeue s
  end.

Definition apply_ops (s : AgentState) (ops : list QueueOp) : AgentState :=
  foldl apply_op s ops.

(** No two seen keywords share a normal form, and the queue is the tail
    end of the seen keywords. *)
Definition queue_inv (s : AgentState) : Prop :=
  NoDup (normalize <$> discovered_keywords s)
  /\ exists served, discovered_keywords s = served ++ pending_searches s.

End KeywordQueue.

(** ** The WeChat crawler: paging *)
Module WeChat.

(** Python's [l[:n]]. *)
Definition slice_to {A} (n : Z) (l : list A) : list A :=
  if bool_decide (0 <= n) then take (Z.to_nat n) l
  else take (length l - Z.to_nat (- n)) l.

Section Search.

(** A parsed search hit; [CrawlResult] below has the fields the crawler
    passes to its constructor. *)
Variable Item : Type.

Record CrawlResult : Type := mkCrawlResult {
  platform : string;
  items : list Item;
  total_found : Z;
  has_more : bool
}.

(** The helpers the design text leaves out, each of which may raise, and
    the server: the answers [_request_with_retry] meets for a query, a
    time parameter and a page. *)
Variable _convert_time_range : string -> Exception + string.
Variable _parse_search_results : option string -> Exception + list Item.
Variable server : string -> string -> Z -> Crawler.World.

(** What a search did: the pages it requested and how it ended. *)
Record Trace (A : Type) : Type := mkTrace {
  pages : list Z;
  ended : Exception + A
}.
Arguments mkTrace {A} pages ended.
Arguments pages {A} t.
Arguments ended {A} t.

(** The loop [while len(results) < limit]; [None] when the fuel runs
    out. *)
Fixpoint search_loop (query time_param : string) (limit : Z) (fuel : nat)
    (results : list Item) (page : Z) : option (Trace (list Item)) :=
  if bool_decide (Z.of_nat (length results) < limit) then
    match fuel with
    | O => None
    | S fuel' =>
        match fst (Crawler._request_with_retry (server query time_param page)
                     Crawler.default_max_retries) with
        | Crawler.Raise e => Some (mkTrace [page] (inl e))
        | Crawler.Returned data =>
            match _parse_search_results data with
            | inl e => Some (mkTrace [page] (inl e))
            | inr found =>
                let results := results ++ found in
                match found with
                | [] => Some (mkTrace [page] (inr results))
                | _ :: _ =>
                    match search_loop query time_param limit fuel' results
                            (page + 1) with
                    | Some t => Some (mkTrace (page :: pages t) (ended t))
                    | None => None
                    end
                end
            end
        end
    end
  else Some (mkTrace [] (inr results)).

(** The hits of one page: what [_parse_search_results] finds in what
    [_request_with_retry] returns for it. *)
Definition page_hits (query time_param : string) (page : Z)
  : Exception + list Item :=
  match fst (Crawler._request_with_retry (server query time_param page)
               Crawler.default_max_retries) with
  | Crawler.Raise e => inl e
  | Crawler.Returned data => _parse_search_results data
  end.

(** The hits of a run of pages, in order; a page that raised has
    none. *)
Definition collect (query time_param : string) (pages : list Z)
  : list Item :=
  flat_map (fun page =>
              match page_hits query time_param page with
              | inr found => found
              | inl _ => []
              end) pages.

(** [WeChatCrawler.search]. *)
Definition search (fuel : nat) (query time_range : string) (limit : Z)
  : option (Trace CrawlResult) :=
  match _convert_time_range time_range with
  | inl e => Some (mkTrace [] (inl e))
  | inr time_param =>
      match search_loop query time_param limit fuel [] 1 with
      | None => None
      | Some t =>
          Some (mkTrace (pages t)
                  match ended t with
                  | inl e => inl e
                  | inr results =>
                      inr (mkCrawlResult "wechat" (slice_to limit results)
                             (Z.of_nat (length results))
                             (bool_decide
                                (limit < Z.of_nat (length results))))
                  end)
      end
  end.

End Search.

Arguments mkTrace {A} pages ended.
Arguments pages {A} t.
Arguments ended {A} t.
Arguments items {Item} c.
Arguments total_found {Item} c.
Arguments has_more {Item} c.
Arguments platform {Item} c.

(** A site with seven hits, three to a page, and helpers that do not
    raise: a page body is the number of hits on it. *)
Definition demo_convert (time_range : string) : Exception + string :=
  inr time_range.
Definition demo_parse (data : option string) : Exception + list nat :=
  match data with
  | Some "3" => inr [1; 2; 3]%nat
  | Some "1" => inr [7]%nat
  | _ => inr []
  end.
Definition demo_server (query time_param : string) (page : Z)
  : Crawler.World :=
  Crawler.mkWorld (fun _ => "proxy")
    (fun _ =>
       Crawler.Responded 200
         (inr (Some (if bool_decide (page <= 2) then "3"
                     else if bool_decide (page = 3) then "1" else "0")))
         None).

End WeChat.

(** ** The proxy pool *)
Module ProxyPool.
Import Stdlib.QArith.Qcanon.
Local Open Scope Z_scope.

(** The two Redis keys of the pool: the sorted set [crawler:proxy_pool],
    a score for each member, and the hash [crawler:proxy_failed], a
    failure count for each field.  A score is kept as a rational. *)
Record Redis : Type := mkRedis {
  proxy_pool : gmap string Qc;
  proxy_failed : gmap string Z
}.

(** [ZINCRBY]: a missing member starts from 0. *)
Definition zincrby (delta : Qc) (member : string) (z : gmap string Qc)
  : gmap string Qc :=
  <[member := (default 0 (z !! member) + delta)%Qc]> z.

(** [HINCRBY]: a missing field starts from 0. *)
Definition hincrby (field : string) (delta : Z) (h : gmap string Z)
  : gmap string Z :=
  <[field := default 0 (h !! field) + delta]> h.

(** [int(hget(failed_key, proxy) or 0)]. *)
Definition failures (proxy : string) (r : Redis) : Z :=
  default 0 (proxy_failed r !! proxy).

(** [ProxyPool.mark_failed]. *)
Definition mark_failed (proxy : string) (r : Redis) : Redis :=
  let pool := zincrby (-1) proxy (proxy_pool r) in
  let failed := hincrby proxy 1 (proxy_failed r) in
  if bool_decide (5 < default 0 (failed !! proxy)) then
    mkRedis (delete proxy pool) failed
  else mkRedis pool failed.

(** [ProxyPool.mark_success]. *)
Definition mark_success (proxy : string) (r : Redis) : Redis :=
  mkRedis (zincrby 1 proxy (proxy_pool r)) (proxy_failed r).

(** The order of [ZREVRANGE]: higher score first, and among equal scores
    the greater member first. *)
Definition outranks (a b : string * Qc) : bool :=
  if decide (snd b < snd a)%Qc then true
  else if decide (snd a = snd b) then String.ltb (fst b) (fst a)
  else false.

Definition first_of (l : list (string * Qc)) : option (string * Qc) :=
  foldr (fun x acc =>
           match acc with
           | Some y => if outranks x y then Some x else Some y
           | None => Some x
           end) None l.

(** [zrevrange(proxy_key, 0, 0, withscores=True)], at most one entry. *)
Definition zrevrange_first (z : gmap string Qc) : option (string * Qc) :=
  first_of (map_to_list z).

(** [ProxyPool.get]; [_fetch_new_proxy] is not part of the design text
    and stands for the proxy it returns. *)
Definition get (_fetch_new_proxy : string) (r : Redis) : string :=
  match zrevrange_first (proxy_pool r) with
  | Some (proxy, _) => proxy
  | None => _fetch_new_proxy
  end.

Inductive PoolOp : Type :=
| MarkFailed (proxy : string)
| MarkSuccess (proxy : string).

Definition apply_op (r : Redis) (op : PoolOp) : Redis :=
  match op with
  | MarkFailed p => mark_failed p r
  | MarkSuccess p => mark_success p r
  end.

Definition apply_ops (r : Redis) (ops : list PoolOp) : Redis :=
  foldl apply_op r ops.

(** How often [mark_failed] is called for a proxy. *)
Fixpoint count_failed (proxy : string) (ops : list PoolOp) : Z :=
  match ops with
  | [] => 0
  | MarkFailed p :: ops' =>
      (if bool_decide (p = proxy) then 1 else 0) + count_failed proxy ops'
  | MarkSuccess _ :: ops' => count_failed proxy ops'
  end.

End ProxyPool.

(** ** The platform parsers *)
Module Parser.
Import Client.

(** The decoded answer of a platform is made of Python's [None], [bool],
    [int], [str], [list] and [dict], the values of [json]; [JNull] is
    [None].  A call either returns or raises. *)
Inductive PyResult (A : Type) : Type :=
| Return (a : A)
| Raise (e : Exception).
Arguments Return {A} a.
Arguments Raise {A} e.

#[local] Instance PyResult_ret : MRet PyResult := fun A a => Return a.
#[local] Instance PyResult_bind : MBind PyResult := fun A B k r =>
  match r with
  | Return a => k a
  | Raise e => Raise e
  end.

Definition AttributeError : Exception := OtherException "AttributeError".

(** [v.get(key, default)]: only a [dict] has the method. *)
Definition py_get (key : string) (default : json) (v : json) : PyResult json :=
  match v with
  | JObj d =>
      Return (match assoc key d with Some x => x | None => default end)
  | _ => Raise AttributeError
  end.

(** [ParsedContent]; [images] is [None] where the parser does not pass
    it. *)
Record ParsedContent : Type := mkParsedContent {
  title : json;
  body : json;
  author : json;
  published_at : json;
  metrics : list (string * json);
  images : option json
}.

(** [ZhihuParser.parse_answer]. *)
Definition parse_answer (data : json) : PyResult ParsedContent :=
  question ← py_get "question" (JObj []) data;
  title ← py_get "title" JNull question;
  body ← py_get "content" JNull data;
  author ← py_get "author" (JObj []) data;
  name ← py_get "name" JNull author;
  published_at ← py_get "created_time" JNull data;
  voteup_count ← py_get "voteup_count" (JNum 0) data;
  comment_count ← py_get "comment_count" (JNum 0) data;
  mret (mkParsedContent title body name published_at
          [("voteup_count", voteup_count); ("comment_count", comment_count)]
          None).


Definition is_dict (v : json) : bool :=
  match v with JObj _ => true | _ => false end.

(** A key read as a nested [dict] is absent, or holds a [dict]. *)
Definition nested_ok (key : string) (data : json) : bool :=
  match get key data with
  | Some v => is_dict v
  | None => true
  end.

(** The value under a key, [fallback] where the key is absent. *)
Definition value_or (fallback : json) (v : option json) : json :=
  match v with Some x => x | None => fallback end.

End Parser.

(** ** The demo reasoning logs: [geminiService.ts] *)
Module Gemini.

#[local] Set Warnings "-register-all".

(** A JavaScript string is its sequence of UTF-16 code units; [length]
    counts them and [split] cuts between them. *)
Definition JsString : Type := list N.

(** A literal of the source, all of it ASCII. *)
Definition lit (s : string) : JsString :=
  Ascii.N_of_ascii <$> String.list_ascii_of_string s.

Definition quote : JsString := [34%N].

(** What [JSON.parse] returns. *)
Inductive value : Type :=
| VNull
| VBool (b : bool)
| VNum (n : Z)
| VStr (s : JsString)
| VArr (items : list value)
| VObj (fields : list (JsString * value)).

Fixpoint assoc (key : JsString) (fields : list (JsString * value))
  : option value :=
  match fields with
  | [] => None
  | (k, v) :: rest => if bool_decide (k = key) then Some v else assoc key rest
  end.

(** [o.key] for [o] other than [null]; [None] is [undefined]. *)
Definition get (key : string) (o : value) : option value :=
  match o with
  | VObj fields => assoc (lit key) fields
  | _ => None
  end.

Record LogEntry : Type := mkLogEntry {
  id : JsString;
  timestamp : JsString;
  level : option value;
  message : option value;
  details : option value;
  progress : option value
}.

(** [s.split(' ')]: never empty. *)
Fixpoint split_spaces (s : JsString) : list JsString :=
  match s with
  | [] => [[]]
  | c :: s' =>
      if bool_decide (c = 32%N) then [] :: split_spaces s'
      else
        match split_spaces s' with
        | w :: ws => (c :: w) :: ws
        | [] => [[c]]
        end
  end.

(** The keyword of [generateMockLogs]:
    [prompt.split(' ').filter(w => w.length > 3)[0] || 'Unknown']. *)
Definition keyword_of (prompt : JsString) : JsString :=
  let keywords := filter (fun w => 3 < length w)%nat (split_spaces prompt) in
  match head keywords with
  | Some w => if bool_decide (w = []) then lit "Unknown" else w
  | None => lit "Unknown"
  end.

(** The answer of [ai.models.generateContent]: a rejection, or a response
    with its [text], which may be [undefined]. *)
Inductive ApiAnswer : Type :=
| ApiRejected (e : Client.JsError)
| ApiResponse (text : option JsString).

Section Service.

(** The runtime: the base-36 rendering of the [k]-th [Math.random()],
    the [toTimeString()] of the [k]-th [new Date()], and [JSON.parse],
    [None] for a [SyntaxError]. *)
Variable Math_random : nat -> JsString.
Variable toTimeString : nat -> JsString.
Variable JSON_parse : JsString -> option value.

(** [generateId]: [Math.random().toString(36).substr(2, 9)]. *)
Definition generateId (k : nat) : JsString := take 9 (drop 2 (Math_random k)).

(** [getCurrentTime]: [now.toTimeString().split(' ')[0]]. *)
Definition getCurrentTime (k : nat) : JsString :=
  default [] (head (split_spaces (toTimeString k))).

(** [GeminiService.generateMockLogs]; [n] entries have been stamped
    before, each stamp drawing one id and one time. *)
Definition generateMockLogs (prompt : JsString) (n : nat) : list LogEntry :=
  let keyword := keyword_of prompt in
  [ mkLogEntry (generateId n) (getCurrentTime n)
      (Some (VStr (lit "INFO")))
      (Some (VStr (lit "INIT: Connection to Firehose established for query "
                   ++ quote ++ keyword ++ quote ++ lit ".")))
      None None;
    mkLogEntry (generateId (n + 1)) (getCurrentTime (n + 1))
      (Some (VStr (lit "DEBUG")))
      (Some (VStr (lit "Parsing data stream from proxy nodes.")))
      (Some (VStr (lit "Rate limit check: OK (24ms)"))) None;
    mkLogEntry (generateId (n + 2)) (getCurrentTime (n + 2))
      (Some (VStr (lit "EXEC")))
      (Some (VStr (lit "Cross-referencing entities against Knowledge Graph.")))
      None (Some (VNum 65));
    mkLogEntry (generateId (n + 3)) (getCurrentTime (n + 3))
      (Some (VStr (lit "NET")))
      (Some (VStr (lit "Updated node weights for [" ++ keyword
                   ++ lit "] and related clusters.")))
      None None;
    mkLogEntry (generateId (n + 4)) (getCurrentTime (n + 4))
      (Some (VStr (lit "INFO")))
      (Some (VStr (lit "Task complete. 420 new data points indexed.")))
      None None ]%nat.

(** The entry made of a log of the model: the stamp is taken before the
    log is read. *)
Definition entry_of (k : nat) (log : value) : LogEntry :=
  mkLogEntry (generateId k) (getCurrentTime k)
    (get "level" log) (get "message" log) (get "details" log) None.

(** [data.logs.map((log) => ({ ... }))] from stamp [n] on: the number of
    stamps taken, and the entries, or the [TypeError] of reading a
    property of [null]. *)
Fixpoint map_logs (n : nat) (logs : list value)
  : nat * Client.Completion (list LogEntry) :=
  match logs with
  | [] => (n, Client.Resolve [])
  | VNull :: _ => (S n, Client.Reject Client.type_error)
  | log :: rest =>
      let '(m, r) := map_logs (S n) rest in
      (m, Client.and_then r
            (fun entries => Client.Resolve (entry_of n log :: entries)))
  end.

(** The body of the [try] of [generateReasoningLogs]. *)
Definition ask_model (api : ApiAnswer) (n : nat)
  : nat * Client.Completion (list LogEntry) :=
  match api with
  | ApiRejected e => (n, Client.Reject e)
  | ApiResponse text =>
      let parsed :=
        match text with
        | None | Some [] => Some (VObj [(lit "logs", VArr [])])
        | Some t => JSON_parse t
        end in
      match parsed with
      | None => (n, Client.Reject (Client.mkError "SyntaxError" "Unexpected token"))
      | Some VNull => (n, Client.Reject Client.type_error)
      | Some data =>
          match get "logs" data with
          | Some (VArr logs) => map_logs n logs
          | _ => (n, Client.Reject Client.type_error)
          end
      end
  end.

(** [GeminiService.generateReasoningLogs]; the line written with
    [console.error] in the [catch] is left out. *)
Definition generateReasoningLogs (hasKey : bool) (api : ApiAnswer)
    (prompt : JsString) (n : nat) : Client.Completion (list LogEntry) :=
  if negb hasKey then Client.Resolve (generateMockLogs prompt n)
  else
    let '(m, r) := ask_model api n in
    Client.try_catch r
      (fun _ => Client.Resolve (generateMockLogs prompt m)).

End Service.

End Gemini.

(** * Theorems *)

(** ** The orchestrator loop *)
Section OrchestratorProofs.
Import Agent.

Variable _plan : AgentState -> string -> Outcome.
Variable _execute_step : AgentState -> Outcome.
Variable _expand_search : AgentState -> string -> Outcome.
Variable _critique : AgentState -> Outcome.
Variable _synthesize : AgentState -> Outcome.
Variable _recover : AgentState -> Exception -> Outcome.

(** Frame conditions: only the orchestrator writes the step counter and
    the step budget while the loop runs, and the planner leaves the step
    counter at its initial value. *)
Hypothesis execute_frame : forall s,
  current_step (out_state (_execute_step s)) = current_step s
  /\ max_steps (out_state (_execute_step s)) = max_steps s.
Hypothesis expand_frame : forall s k,
  current_step (out_state (_expand_search s k)) = current_step s
  /\ max_steps (out_state (_expand_search s k)) = max_steps s.
Hypothesis plan_frame : forall s c,
  current_step (out_state (_plan s c)) = current_step s.

Abbreviation body := (loop_body _execute_step _expand_search).
Abbreviation loop := (run_loop _execute_step _expand_search).
Abbreviation run' :=
  (run _plan _execute_step _expand_search _critique _synthesize _recover).

Lemma count_calls_app f l1 l2 :
  count_calls f (l1 ++ l2) = (count_calls f l1 + count_calls f l2)%nat.
Proof.
  induction l1 as [|c l1 IH]; simpl; [reflexivity|].
  rewrite IH. lia.
Qed.

Lemma body_counters s :
  current_step (body_state (body s)) = current_step s + 1
  /\ max_steps (body_state (body s)) = max_steps s.
Proof.
  unfold loop_body.
  set (s1 := set_current_step (current_step s + 1) s).
  destruct (execute_frame s1) as [Hc Hm].
  destruct (out_raised (_execute_step s1)); simpl; [auto|].
  destruct (pending_searches (out_state (_execute_step s1))) as [|k q];
    simpl; [auto|].
  destruct (expand_frame (set_pending_searches q (out_state (_execute_step s1))) k)
    as [Hc' Hm'].
  rewrite Hc', Hm'. simpl. auto.
Qed.

Lemma body_calls_shape s :
  count_calls is_execute (body_calls (body s)) = 1%nat
  /\ (count_calls is_expand (body_calls (body s)) <= 1)%nat
  /\ count_calls is_pop (body_calls (body s))
     = count_calls is_expand (body_calls (body s))
  /\ (body_exit (body s) = NextIteration ->
      count_calls is_expand (body_calls (body s)) = 1%nat)
  /\ (body_exit (body s) = Break ->
      pending_searches (body_state (body s)) = []
      /\ count_calls is_expand (body_calls (body s)) = O).
Proof.
  unfold loop_body.
  set (s1 := set_current_step (current_step s + 1) s).
  destruct (out_raised (_execute_step s1)); simpl.
  - repeat split; try lia; discriminate.
  - destruct (pending_searches (out_state (_execute_step s1))) as [|k q] eqn:Hq;
      simpl.
    + repeat split; try lia; try discriminate; auto.
    + repeat split; try lia; try discriminate.
      all: destruct (out_raised (_expand_search _ k)); discriminate.
Qed.

Lemma loop_spec n : forall s,
  (budget s <= n)%nat -> exists r, loop n s = Some r /\ loop_post s r.
Proof.
  induction n as [|n IH]; intros s Hb.
  - simpl. rewrite bool_decide_eq_false_2 by (unfold budget in Hb; lia).
    eexists; split; [reflexivity|].
    unfold loop_post, budget in *; simpl. repeat split; lia.
  - simpl. destruct (bool_decide (current_step s < max_steps s)) eqn:Hlt.
    + apply bool_decide_eq_true_1 in Hlt.
      destruct (body_counters s) as [Hc Hm].
      destruct (body_calls_shape s) as (He & Hx & Hp & _ & Hbrk).
      destruct (body_exit (body s)) eqn:Hexit.
      * destruct (IH (body_state (body s))) as (r & Hr & Hpost).
        { unfold budget in *. rewrite Hc, Hm. lia. }
        rewrite Hr. eexists; split; [reflexivity|].
        destruct Hpost as (P1 & P2 & P3 & P4 & P5).
        unfold loop_post; simpl. rewrite !count_calls_app.
        assert (Hbud : budget s = S (budget (body_state (body s)))).
        { unfold budget. rewrite Hc, Hm. lia. }
        repeat split; try lia.
        destruct (loop_exit r); auto.
        destruct P5. split; lia.
      * eexists; split; [reflexivity|].
        unfold loop_post, budget in *; simpl.
        destruct Hbrk as [Hq H0]; [reflexivity|].
        repeat split; auto; lia.
      * eexists; split; [reflexivity|].
        unfold loop_post, budget in *; simpl.
        repeat split; auto; lia.
    + apply bool_decide_eq_false_1 in Hlt.
      eexists; split; [reflexivity|].
      unfold loop_post, budget in *; simpl. repeat split; lia.
Qed.

Lemma recovering_calls s steps calls e :
  run_calls (recovering _recover s steps calls e)
  = calls ++ handler_calls s e.
Proof. destruct e; simpl; [reflexivity|rewrite app_nil_r; reflexivity]. Qed.

Lemma handler_no_loop_calls s e :
  count_calls is_execute (handler_calls s e) = O
  /\ count_calls is_expand (handler_calls s e) = O
  /\ count_calls is_pop (handler_calls s e) = O.
Proof. destruct e; repeat split. Qed.

(** The calls of a whole run: planning, the loop's calls, then calls that
    are neither executing, dequeuing nor expanding; critiquing comes first
    among them unless the loop was left by an exception. *)
Lemma run_spec fuel tid command l :
  out_raised (_plan (new_state tid command) command) = None ->
  loop fuel (out_state (_plan (new_state tid command) command)) = Some l ->
  exists res tail,
    run' fuel tid command = Some res
    /\ run_calls res = CallPlan (new_state tid command) :: loop_calls l ++ tail
    /\ count_calls is_execute tail = O
    /\ count_calls is_expand tail = O
    /\ count_calls is_pop tail = O
    /\ ((forall e, loop_exit l <> Raised e) ->
        exists tail', tail = CallCritique (loop_state l) :: tail').
Proof.
  intros Hp Hl. unfold run. rewrite Hp, Hl.
  destruct (loop_exit l) as [| |e] eqn:Hexit.
  1, 2:
    destruct (out_raised (_critique (loop_state l))) as [e|];
    [|destruct (out_raised (_synthesize (out_state (_critique (loop_state l)))))
        as [e|]];
    eexists; eexists; (split; [reflexivity|]);
    rewrite ?recovering_calls; simpl;
    rewrite <- ?app_assoc; simpl;
    (split; [reflexivity|]); simpl;
    try (destruct (handler_no_loop_calls
                     (out_state (_critique (loop_state l))) e)
           as (-> & -> & ->));
    try (destruct (handler_no_loop_calls
                     (out_state
                        (_synthesize (out_state (_critique (loop_state l)))))
                     e)
           as (-> & -> & ->));
    repeat split; eauto.
  eexists; exists (handler_calls (loop_state l) e).
  split; [reflexivity|]. rewrite recovering_calls. simpl.
  destruct (handler_no_loop_calls (loop_state l) e) as (-> & -> & ->).
  repeat split; auto.
  intros H. exfalso. apply (H e). reflexivity.
Qed.

Lemma run_plan_raised fuel tid command e :
  out_raised (_plan (new_state tid command) command) = Some e ->
  exists res,
    run' fuel tid command = Some res
    /\ run_calls res
       = CallPlan (new_state tid command)
         :: handler_calls
              (out_state (_plan (new_state tid command) command)) e.
Proof.
  intros Hp. unfold run. rewrite Hp. eexists; split; [reflexivity|].
  apply recovering_calls.
Qed.

Lemma budget_after_plan tid command :
  budget (out_state (_plan (new_state tid command) command))
  = Z.to_nat (max_steps (out_state (_plan (new_state tid command) command))).
Proof.
  unfold budget. rewrite plan_frame. simpl. f_equal. lia.
Qed.

(** C1. The loop body of [AgentOrchestrator.run] runs at most [max_steps]
    times, however many keywords are queued: a run terminates, calls
    [_execute_step] at most [max_steps] times and dequeues and expands at
    most that many keywords; and when the loop is left because the step
    counter has reached [max_steps], the next call is [_critique], on the
    state the loop left, whose queue is not processed any further. *)
Theorem orchestrator_step_budget (tid command : string) :
  let s0 := new_state tid command in
  let p := _plan s0 command in
  let M := max_steps (out_state p) in
  exists res,
    run' (Z.to_nat M) tid command = Some res
    /\ Z.of_nat (count_calls is_execute (run_calls res)) <= Z.max 0 M
    /\ Z.of_nat (count_calls is_pop (run_calls res)) <= Z.max 0 M
    /\ Z.of_nat (count_calls is_expand (run_calls res)) <= Z.max 0 M
    /\ (out_raised p = None ->
        exists l,
          loop (Z.to_nat M) (out_state p) = Some l
          /\ (loop_exit l = BudgetReached ->
              M <= current_step (loop_state l)
              /\ Z.of_nat (count_calls is_execute (run_calls res)) = Z.max 0 M
              /\ exists tail,
                  run_calls res
                  = CallPlan s0 :: loop_calls l
                    ++ CallCritique (loop_state l) :: tail)).
Proof.
  intros s0 p M.
  destruct (out_raised p) as [e|] eqn:Hp.
  - destruct (run_plan_raised (Z.to_nat M) tid command e Hp) as (res & Hrun & Hcalls).
    exists res. split; [exact Hrun|]. rewrite Hcalls.
    destruct e; simpl; repeat split; try lia; discriminate.
  - destruct (loop_spec (Z.to_nat M) (out_state p)) as (l & Hl & Hpost).
    { unfold M, p, s0. rewrite budget_after_plan. lia. }
    destruct (run_spec (Z.to_nat M) tid command l Hp Hl)
      as (res & tail & Hrun & Hcalls & T1 & T2 & T3 & Hcrit).
    destruct Hpost as (P1 & P2 & P3 & P4 & P5).
    assert (Hbud : budget (out_state p) = Z.to_nat M)
      by apply budget_after_plan.
    exists res. split; [exact Hrun|].
    rewrite Hcalls. simpl. rewrite !count_calls_app, T1, T2, T3.
    repeat split; try lia.
    intros _. exists l. split; [exact Hl|].
    intros Hexit. rewrite Hexit in P5. destruct P5 as [P5 P6].
    split; [exact P5|]. split; [lia|].
    destruct Hcrit as [tail' ->]; [rewrite Hexit; discriminate|].
    exists tail'. reflexivity.
Qed.

(** What one iteration does, by what [_execute_step] left. *)
Lemma body_cases s :
  let s1 := set_current_step (current_step s + 1) s in
  let r1 := _execute_step s1 in
  (forall kw rest,
     out_raised r1 = None ->
     pending_searches (out_state r1) = kw :: rest ->
     let s2 := set_pending_searches rest (out_state r1) in
     body_calls (body s) = [CallExecute s1; Pop kw; CallExpand s2 kw]
     /\ body_state (body s) = out_state (_expand_search s2 kw)
     /\ body_exit (body s)
        = match out_raised (_expand_search s2 kw) with
          | Some e => BodyRaised e
          | None => NextIteration
          end)
  /\ (out_raised r1 = None ->
      pending_searches (out_state r1) = [] ->
      body_calls (body s) = [CallExecute s1]
      /\ body_state (body s) = out_state r1
      /\ body_exit (body s) = Break)
  /\ (forall e,
        out_raised r1 = Some e ->
        body_calls (body s) = [CallExecute s1]
        /\ body_state (body s) = out_state r1
        /\ body_exit (body s) = BodyRaised e).
Proof.
  intros s1 r1. unfold loop_body. fold s1. fold r1.
  split; [|split].
  - intros kw rest -> ->. repeat split.
  - intros -> ->. repeat split.
  - intros e ->. repeat split.
Qed.

(** The loop runs the body again and again: it stops without a call once
    the step counter has reached the budget, stops after a body that
    breaks, and otherwise goes on from the state the body left. *)
Lemma loop_unfold n s :
  (~ current_step s < max_steps s ->
   loop n s = Some (mkLoopResult s [] [] BudgetReached))
  /\ (current_step s < max_steps s ->
      body_exit (body s) = Break ->
      loop (S n) s
      = Some (mkLoopResult (body_state (body s)) (body_steps (body s))
                (body_calls (body s)) QueueEmpty))
  /\ (current_step s < max_steps s ->
      body_exit (body s) = NextIteration ->
      forall r,
        loop n (body_state (body s)) = Some r ->
        loop (S n) s
        = Some (mkLoopResult (loop_state r)
                  (body_steps (body s) ++ loop_steps r)
                  (body_calls (body s) ++ loop_calls r) (loop_exit r))).
Proof.
  split; [|split].
  - intros H. destruct n; simpl; rewrite bool_decide_eq_false_2 by exact H;
      reflexivity.
  - intros H Hb. simpl. rewrite bool_decide_eq_true_2 by exact H.
    rewrite Hb. reflexivity.
  - intros H Hb r Hr. simpl. rewrite bool_decide_eq_true_2 by exact H.
    rewrite Hb, Hr. reflexivity.
Qed.

(** C7. One iteration of the loop dequeues and expands exactly one
    keyword when [_execute_step] left the queue non-empty, and none
    otherwise.  From any state the body calls [_execute_step] first; if
    that leaves a queue [kw :: rest], the body pops [kw], hands
    [_expand_search] the keyword and the state whose queue is [rest],
    and goes on to the next iteration from the state the expansion left;
    if it leaves an empty queue the body breaks with no further call.
    So the body makes at most one [_expand_search] call, each preceded
    by exactly one [pop(0)].  The loop repeats the body from the state it
    left, makes no call once the step counter has reached the budget,
    and terminates; when no exception left it, the queue is empty or the
    step counter has reached the budget, and [_critique] is called
    next. *)
Theorem expansion_one_keyword_per_iteration (tid command : string) :
  (forall s : AgentState,
     let b := body s in
     let s1 := set_current_step (current_step s + 1) s in
     let after_execute := out_state (_execute_step s1) in
     (count_calls is_expand (body_calls b) <= 1)%nat
     /\ count_calls is_pop (body_calls b) = count_calls is_expand (body_calls b)
     /\ (forall s2 kw, CallExpand s2 kw ∈ body_calls b ->
           Pop kw ∈ body_calls b
           /\ pending_searches after_execute = kw :: pending_searches s2)
     /\ (body_exit b = NextIteration ->
         count_calls is_expand (body_calls b) = 1%nat)
     /\ (body_exit b = Break ->
         pending_searches after_execute = []
         /\ pending_searches (body_state b) = []
         /\ count_calls is_expand (body_calls b) = O)
     /\ (forall kw rest,
           out_raised (_execute_step s1) = None ->
           pending_searches after_execute = kw :: rest ->
           let s2 := set_pending_searches rest after_execute in
           body_calls b = [CallExecute s1; Pop kw; CallExpand s2 kw]
           /\ body_state b = out_state (_expand_search s2 kw)
           /\ body_exit b
              = match out_raised (_expand_search s2 kw) with
                | Some e => BodyRaised e
                | None => NextIteration
                end)
     /\ (out_raised (_execute_step s1) = None ->
         pending_searches after_execute = [] ->
         body_calls b = [CallExecute s1]
         /\ body_state b = after_execute
         /\ body_exit b = Break)
     /\ (forall e,
           out_raised (_execute_step s1) = Some e ->
           body_calls b = [CallExecute s1]
           /\ body_state b = after_execute
           /\ body_exit b = BodyRaised e))
  /\ (forall (n : nat) (s : AgentState),
        (~ current_step s < max_steps s ->
         loop n s = Some (mkLoopResult s [] [] BudgetReached))
        /\ (current_step s < max_steps s ->
            body_exit (body s) = Break ->
            loop (S n) s
            = Some (mkLoopResult (body_state (body s)) (body_steps (body s))
                      (body_calls (body s)) QueueEmpty))
        /\ (current_step s < max_steps s ->
            body_exit (body s) = NextIteration ->
            forall r,
              loop n (body_state (body s)) = Some r ->
              loop (S n) s
              = Some (mkLoopResult (loop_state r)
                        (body_steps (body s) ++ loop_steps r)
                        (body_calls (body s) ++ loop_calls r) (loop_exit r))))
  /\ (let s0 := new_state tid command in
      let p := _plan s0 command in
      let M := max_steps (out_state p) in
      out_raised p = None ->
      exists l res,
        loop (Z.to_nat M) (out_state p) = Some l
        /\ run' (Z.to_nat M) tid command = Some res
        /\ count_calls is_pop (loop_calls l)
           = count_calls is_expand (loop_calls l)
        /\ (count_calls is_expand (loop_calls l)
            <= count_calls is_execute (loop_calls l))%nat
        /\ ((forall e, loop_exit l <> Raised e) ->
            (pending_searches (loop_state l) = []
             \/ M <= current_step (loop_state l))
            /\ exists tail,
                run_calls res
                = CallPlan s0 :: loop_calls l
                  ++ CallCritique (loop_state l) :: tail)).
Proof.
  split; [|split].
  - intros s b s1 after_execute.
    destruct (body_calls_shape s) as (_ & Hx & Hp & Hnext & Hbrk).
    destruct (body_cases s) as (Hkw & Hempty & Hraise).
    split; [exact Hx|]. split; [exact Hp|].
    split; [|split; [exact Hnext|split; [|split; [exact Hkw|split;
      [exact Hempty|exact Hraise]]]]].
    + intros s2 kw Hin. subst b after_execute s1.
      destruct (out_raised (_execute_step
                  (set_current_step (current_step s + 1) s))) as [e|] eqn:Hr.
      { destruct (Hraise e eq_refl) as (Hc & _). rewrite Hc in Hin |- *.
        apply list_elem_of_singleton in Hin. discriminate. }
      destruct (pending_searches
                  (out_state (_execute_step
                     (set_current_step (current_step s + 1) s))))
        as [|k q] eqn:Hq.
      { destruct (Hempty eq_refl eq_refl) as (Hc & _). rewrite Hc in Hin.
        apply list_elem_of_singleton in Hin. discriminate. }
      destruct (Hkw k q eq_refl eq_refl) as (Hc & _). rewrite Hc in Hin |- *.
      rewrite !elem_of_cons in Hin.
      destruct Hin as [Hin|[Hin|[Hin|Hin]]]; try discriminate;
        [|apply elem_of_nil in Hin; contradiction].
      injection Hin as -> ->. split; [|reflexivity].
      rewrite !elem_of_cons. auto.
    + intros Hb. destruct (Hbrk Hb) as [Hq H0].
      split; [|split; [exact Hq|exact H0]].
      subst b after_execute s1.
      destruct (out_raised (_execute_step
                  (set_current_step (current_step s + 1) s))) as [e|] eqn:Hr.
      { destruct (Hraise e eq_refl) as (_ & _ & Hx'). congruence. }
      destruct (pending_searches
                  (out_state (_execute_step
                     (set_current_step (current_step s + 1) s))))
        as [|k q] eqn:Hq'; [reflexivity|].
      destruct (Hkw k q eq_refl eq_refl) as (_ & _ & Hx').
      rewrite Hb in Hx'.
      destruct (out_raised (_expand_search _ k)); discriminate.
  - intros n s. apply loop_unfold.
  - intros s0 p M Hp.
    destruct (loop_spec (Z.to_nat M) (out_state p)) as (l & Hl & Hpost).
    { unfold M, p, s0. rewrite budget_after_plan. lia. }
    destruct (run_spec (Z.to_nat M) tid command l Hp Hl)
      as (res & tail & Hrun & Hcalls & _ & _ & _ & Hcrit).
    destruct Hpost as (P1 & P2 & P3 & P4 & P5).
    exists l, res. repeat split; auto.
    + destruct (loop_exit l) eqn:Hexit.
      * right. apply P5.
      * left. exact P5.
      * exfalso. apply (H e). reflexivity.
    + destruct (Hcrit H) as [tail' ->]. rewrite Hcalls. eauto.
Qed.

End OrchestratorProofs.

Lemma demo_frames :
  (forall s,
     Agent.current_step (Agent.out_state (Agent.demo_execute s))
     = Agent.current_step s
     /\ Agent.max_steps (Agent.out_state (Agent.demo_execute s))
        = Agent.max_steps s)
  /\ (forall s k,
        Agent.current_step (Agent.out_state (Agent.demo_expand s k))
        = Agent.current_step s
        /\ Agent.max_steps (Agent.out_state (Agent.demo_expand s k))
           = Agent.max_steps s)
  /\ (forall s c,
        Agent.current_step (Agent.out_state (Agent.demo_plan s c))
        = Agent.current_step s).
Proof. repeat split. Defined.

(** The step budget at the concrete step executor: a budget of two with
    six keywords queued. *)
Lemma orchestrator_step_budget_witness :
  exists res,
    Agent.run Agent.demo_plan Agent.demo_execute Agent.demo_expand
      Agent.demo_critique Agent.demo_synthesize Agent.demo_recover
      2 "task_001" "Monitor X" = Some res
    /\ Z.of_nat (Agent.count_calls Agent.is_execute (Agent.run_calls res)) <= 2
    /\ Z.of_nat (Agent.count_calls Agent.is_pop (Agent.run_calls res)) <= 2
    /\ Z.of_nat (Agent.count_calls Agent.is_expand (Agent.run_calls res)) <= 2.
Proof.
  destruct demo_frames as (He & Hx & Hp).
  destruct (orchestrator_step_budget Agent.demo_plan Agent.demo_execute
              Agent.demo_expand Agent.demo_critique Agent.demo_synthesize
              Agent.demo_recover He Hx Hp "task_001" "Monitor X")
    as (res & Hrun & H1 & H2 & H3 & _).
  exists res. split; [exact Hrun|]. split; [exact H1|]. split; [exact H2|].
  exact H3.
Defined.

(** One keyword per iteration at the concrete step executor. *)
Lemma expansion_one_keyword_per_iteration_witness :
  exists l res,
    Agent.run_loop Agent.demo_execute Agent.demo_expand 2
      (Agent.out_state
         (Agent.demo_plan (Agent.new_state "task_001" "Monitor X") "Monitor X"))
    = Some l
    /\ Agent.run Agent.demo_plan Agent.demo_execute Agent.demo_expand
         Agent.demo_critique Agent.demo_synthesize Agent.demo_recover
         2 "task_001" "Monitor X" = Some res
    /\ Agent.count_calls Agent.is_pop (Agent.loop_calls l)
       = Agent.count_calls Agent.is_expand (Agent.loop_calls l).
Proof.
  destruct demo_frames as (He & Hx & Hp).
  destruct (expansion_one_keyword_per_iteration Agent.demo_plan
              Agent.demo_execute Agent.demo_expand Agent.demo_critique
              Agent.demo_synthesize Agent.demo_recover He Hx Hp
              "task_001" "Monitor X")
    as (_ & _ & Hloop).
  destruct (Hloop eq_refl) as (l & res & Hl & Hrun & Hpop & _).
  exists l, res. split; [exact Hl|]. split; [exact Hrun|]. exact Hpop.
Defined.

(** Scenario D: with a budget of two and six keywords queued, the run
    executes twice, expands two keywords, and hands [_critique] a state
    whose step counter is two and whose queue still holds four keywords;
    seven steps are yielded in all. *)
Example scenario_D_budget_two :
  match Agent.demo_run with
  | Some res =>
      Agent.count_calls Agent.is_execute (Agent.run_calls res) = 2%nat
      /\ Agent.count_calls Agent.is_expand (Agent.run_calls res) = 2%nat
      /\ length (Agent.run_steps res) = 7%nat
      /\ match Agent.run_calls res !! 7%nat with
         | Some (Agent.CallCritique s) =>
             Agent.current_step s = 2
             /\ Agent.pending_searches s = ["k3"; "k4"; "k5"; "k6"]%string
         | _ => False
         end
  | None => False
  end.
Proof. vm_compute. repeat split. Qed.

(** ** The crawler's retry loop *)
Section CrawlerProofs.
Import Crawler.

Lemma count_sends_app l1 l2 :
  count_sends (l1 ++ l2) = (count_sends l1 + count_sends l2)%nat.
Proof. induction l1 as [|e l1 IH]; simpl; [reflexivity|]. rewrite IH. lia. Qed.

(** The [try] block sends a request at most once. *)
Lemma try_effects_sends attempt proxy a :
  count_sends (try_effects attempt proxy a)
  = if requested a then 1%nat else O.
Proof. destruct a; simpl; try reflexivity. case_bool_decide; reflexivity. Qed.

(** One turn of the loop: a [RateLimitedException] goes to the sleep and
    the next turn, anything else ends the function. *)
Lemma retry_from_S w attempt remaining :
  retry_from w attempt (S remaining)
  = if rate_limited (outcome_at w attempt) then
      (fst (retry_from w (S attempt) remaining),
       try_effects attempt (proxy_at w attempt) (outcome_at w attempt)
       ++ Sleep (2 ^ Z.of_nat attempt)
          :: snd (retry_from w (S attempt) remaining))
    else
      (try_result (outcome_at w attempt),
       try_effects attempt (proxy_at w attempt) (outcome_at w attempt)).
Proof.
  simpl. unfold rate_limited.
  destruct (retry_from w (S attempt) remaining) as [r rest].
  destruct (try_result (outcome_at w attempt)) as [v|[]]; reflexivity.
Qed.

(** At most [remaining] requests are sent. *)
Lemma retry_from_sends w : forall remaining attempt,
  (count_sends (snd (retry_from w attempt remaining)) <= remaining)%nat.
Proof.
  induction remaining as [|n IH]; intros attempt; [simpl; lia|].
  rewrite retry_from_S. specialize (IH (S attempt)).
  pose proof (try_effects_sends attempt (proxy_at w attempt)
                (outcome_at w attempt)) as Hs.
  destruct (rate_limited (outcome_at w attempt)); simpl.
  - rewrite count_sends_app. simpl. rewrite Hs.
    destruct (requested _); lia.
  - rewrite Hs. destruct (requested _); lia.
Qed.

Lemma request_with_retry_sends w max_retries :
  (Z.of_nat (count_sends (snd (_request_with_retry w max_retries)))
   <= Z.max 0 max_retries)%Z.
Proof.
  unfold _request_with_retry.
  pose proof (retry_from_sends w (Z.to_nat max_retries) O). lia.
Qed.

(** [RateLimitedException] never leaves the function: the [except] clause
    catches it at every attempt, and nothing raises after the loop. *)
Lemma retry_from_swallows_rate_limited w : forall remaining attempt,
  fst (retry_from w attempt remaining) <> Raise RateLimitedException.
Proof.
  induction remaining as [|n IH]; intros attempt; [simpl; discriminate|].
  rewrite retry_from_S. unfold rate_limited.
  destruct (try_result (outcome_at w attempt)) as [v|[]]; simpl;
    try discriminate. apply IH.
Qed.

(** When every attempt is answered 403, the loop runs out and the function
    returns [None]. *)
Lemma retry_from_all_403 w : forall remaining attempt,
  (forall i, exists json, outcome_at w i = Responded 403 json None) ->
  fst (retry_from w attempt remaining) = Returned None
  /\ sleeps (snd (retry_from w attempt remaining))
     = (fun i => 2 ^ Z.of_nat i) <$> seq attempt remaining.
Proof.
  induction remaining as [|n IH]; intros attempt H403; [simpl; auto|].
  destruct (IH (S attempt) H403) as [Hr Hs].
  rewrite retry_from_S. destruct (H403 attempt) as [json ->].
  unfold rate_limited. simpl.
  split; [exact Hr|]. unfold sleeps in *. simpl. rewrite Hs. reflexivity.
Qed.

End CrawlerProofs.

(** C4. Three consecutive rate-limited answers (HTTP 403, the status the
    loop turns into [RateLimitedException]) with the default
    [max_retries]: the function sends three requests, backs off 1, 2 and
    4 seconds, and then returns [None]; it raises nothing.  An HTTP 429
    answer raises [CrawlerException] at the first attempt and is not
    retried. *)
Theorem rate_limited_three_times_returns_none :
  Crawler._request_with_retry (Crawler.always 403) Crawler.default_max_retries
  = (Crawler.Returned None,
     [Crawler.Send 0 "proxy0"; Crawler.MarkFailed "proxy0"; Crawler.Sleep 1;
      Crawler.Send 1 "proxy1"; Crawler.MarkFailed "proxy1"; Crawler.Sleep 2;
      Crawler.Send 2 "proxy2"; Crawler.MarkFailed "proxy2"; Crawler.Sleep 4])
  /\ Crawler._request_with_retry (Crawler.always 429)
       Crawler.default_max_retries
     = (Crawler.Raise (CrawlerException "HTTP 429"),
        [Crawler.Send 0 "proxy0"]).
Proof. split; vm_compute; reflexivity. Qed.

(** ** Error recovery *)
Section ResilienceProofs.
Import Resilience.

(** [get_strategy] by cases on the classification. *)
Lemma get_strategy_table classify error :
  get_strategy classify error
  = match classify error with
    | Some CRAWLER_BLOCKED => Some SwitchProxyStrategy
    | _ => Some ExponentialBackoffStrategy
    end.
Proof.
  unfold get_strategy. destruct (classify error) as [[]|]; reflexivity.
Qed.

(** C3, as the code has it. A failure that [_classify_error] maps to no
    error type gets the default of [STRATEGIES.get]: the exponential
    backoff strategy, the one listed for [API_RATE_LIMIT]. *)
Theorem unclassified_gets_exponential_backoff
    (classify : Exception -> option ErrorType) (error : Exception) :
  classify error = None ->
  get_strategy classify error = Some ExponentialBackoffStrategy
  /\ Some ExponentialBackoffStrategy = head (default [] (STRATEGIES !! API_RATE_LIMIT)).
Proof.
  intros H. rewrite get_strategy_table, H. split; reflexivity.
Qed.

End ResilienceProofs.

Lemma unclassified_gets_exponential_backoff_witness :
  Resilience.classify_by_class ParseException = None
  /\ Resilience.get_strategy Resilience.classify_by_class ParseException
     = Some Resilience.ExponentialBackoffStrategy.
Proof.
  split; [reflexivity|].
  apply (unclassified_gets_exponential_backoff
           Resilience.classify_by_class ParseException).
  reflexivity.
Defined.

(** C3 as stated fails: the unclassified [ParseException] does not get
    the strategy of a blocked crawler (switch proxy). *)
Lemma unclassified_not_switch_proxy :
  Resilience.classify_by_class ParseException = None
  /\ Resilience.get_strategy Resilience.classify_by_class BlockedException
     = Some Resilience.SwitchProxyStrategy
  /\ Resilience.get_strategy Resilience.classify_by_class ParseException
     <> Some Resilience.SwitchProxyStrategy.
Proof.
  split; [reflexivity|]. split; [reflexivity|]. vm_compute. discriminate.
Qed.

(** ** Model routing *)

Lemma route_by_length task content :
  Router.route task content = Router.Heavy
  <-> 5000 < Router.len content.
Proof.
  unfold Router.route. case_bool_decide; split; intros; try done; lia.
Qed.

(** C6 at a heavy task with a short input: [critical_review] is listed in
    [heavy_tasks], yet a content of 100 characters is routed to the light
    model; the tier never depends on the task. *)
Theorem route_heavy_task_short_content :
  "critical_review" ∈ Router.heavy_tasks
  /\ Router.route "critical_review" (Router.content_of_length 100)
     = Router.Light
  /\ Router.route "critical_review" (Router.content_of_length (Z.to_nat 5001))
     = Router.Heavy
  /\ forall task1 task2 content,
       Router.route task1 content = Router.route task2 content.
Proof.
  split; [unfold Router.heavy_tasks; rewrite !elem_of_cons; auto|].
  split; [vm_compute; reflexivity|].
  split; [vm_compute; reflexivity|].
  reflexivity.
Qed.

(** ** The abort controller of the service *)
Section ServiceProofs.
Import Client.

Variable JSON_parse : string -> option json.
Variable time_of_day : option json -> string.

Abbreviation execute := (executeWithStream JSON_parse time_of_day).
Abbreviation reach := (run_ops JSON_parse time_of_day).

Lemma replicate_lookup_true n c : replicate n true !! c <> Some false.
Proof.
  intros H. apply lookup_replicate in H as [H _]. discriminate.
Qed.

Lemma in_flight_idle n : in_flight (idle_shape n) = [].
Proof.
  unfold in_flight, idle_shape; cbn [streams controllers].
  induction (seq 0 n) as [|c l IH]; [reflexivity|].
  rewrite filter_cons, IH. case_decide as H; [|reflexivity].
  exfalso. exact (replicate_lookup_true _ _ H).
Qed.

Lemma in_flight_streaming n : in_flight (streaming_shape n) = [n].
Proof.
  unfold in_flight, streaming_shape; cbn [streams controllers].
  rewrite seq_S, filter_app. simpl.
  assert (Hold : filter (fun c => (replicate n true ++ [false]) !! c = Some false)
                   (seq 0 n) = []).
  { assert (Hall : forall c, c ∈ seq 0 n -> (c < n)%nat)
      by (intros c Hc; apply elem_of_seq in Hc; lia).
    induction (seq 0 n) as [|c l IH]; [reflexivity|].
    rewrite filter_cons, IH by (intros; apply Hall; right; assumption).
    case_decide as H; [|reflexivity].
    exfalso. rewrite lookup_app_l in H.
    - exact (replicate_lookup_true _ _ H).
    - rewrite length_replicate. apply Hall. left. }
  rewrite Hold. simpl. rewrite filter_cons, filter_nil.
  case_decide as H; [reflexivity|].
  exfalso. apply H. rewrite lookup_app_r; rewrite length_replicate; [|lia].
  replace (n - n)%nat with O by lia. reflexivity.
Qed.

Lemma abort_idle n : abort (idle_shape n) = idle_shape n.
Proof. reflexivity. Qed.

Lemma abort_streaming n : abort (streaming_shape n) = idle_shape (S n).
Proof.
  unfold abort, streaming_shape, idle_shape.
  cbn [abortController controllers streams]. f_equal.
  rewrite insert_app_r_alt; rewrite length_replicate; [|lia].
  replace (n - n)%nat with O by lia. simpl.
  symmetry. apply replicate_S_end.
Qed.

Lemma begin_idle n : begin_stream (idle_shape n) = streaming_shape n.
Proof.
  unfold begin_stream. rewrite abort_idle.
  unfold idle_shape, streaming_shape. cbn [abortController controllers streams].
  rewrite length_replicate, seq_S. reflexivity.
Qed.

Lemma begin_streaming n :
  begin_stream (streaming_shape n) = streaming_shape (S n).
Proof.
  unfold begin_stream. rewrite abort_streaming.
  exact (begin_idle (S n)).
Qed.

(** Every reachable runtime has one of the two shapes. *)
Lemma run_ops_shape ops :
  exists n, reach ops = idle_shape n \/ reach ops = streaming_shape n.
Proof.
  unfold run_ops. induction ops as [|op ops IH] using rev_ind.
  - exists O. left. reflexivity.
  - rewrite foldl_app. simpl. destruct IH as [n [-> | ->]]; destruct op; simpl.
    + exists n. right. apply begin_idle.
    + exists n. left. apply abort_idle.
    + exists (S n). right. apply begin_streaming.
    + exists (S n). left. apply abort_streaming.
Qed.

(** C9. After any sequence of [executeWithStream] and [abort] calls on a
    service, at most one streaming request has a signal that is not
    aborted; [abort] clears the stored controller and leaves no request
    in flight; and [executeWithStream] aborts the stored controller
    before it issues its request, so that the new request is the only one
    in flight. *)
Theorem at_most_one_stream_in_flight (ops : list Op) (h : Handlers)
    (f : FetchResult) :
  (length (in_flight (reach ops)) <= 1)%nat
  /\ abortController (abort (reach ops)) = None
  /\ in_flight (abort (reach ops)) = []
  /\ (forall c, abortController (reach ops) = Some c ->
        controllers (fst (execute h f (reach ops))) !! c = Some true)
  /\ in_flight (fst (execute h f (reach ops)))
     = [length (controllers (reach ops))]
  /\ abortController (fst (execute h f (reach ops)))
     = Some (length (controllers (reach ops))).
Proof.
  unfold executeWithStream; cbn [fst].
  destruct (run_ops_shape ops) as [n [-> | ->]].
  - rewrite abort_idle, begin_idle, in_flight_idle, in_flight_streaming.
    simpl. rewrite length_replicate. repeat split; auto. discriminate.
  - rewrite abort_streaming, begin_streaming, in_flight_idle,
      !in_flight_streaming.
    unfold streaming_shape, idle_shape; cbn [abortController controllers].
    rewrite length_app, length_replicate. cbn [length].
    replace (n + 1)%nat with (S n) by lia.
    repeat split; auto.
    intros c [= <-]. rewrite lookup_app_l by (rewrite length_replicate; lia).
    apply lookup_replicate. split; [reflexivity|lia].
Qed.

End ServiceProofs.

(** Three streams started in a row, then an abort. *)
Example three_streams_then_abort :
  let start :=
    Client.ExecuteWithStream Client.all_handlers
      (Client.Response true 200 "OK"
         (Some (Client.stream_body "complete" Client.documented_complete))) in
  Client.run_ops Client.documented_parse Client.fixed_clock
    [start; start; start]
  = Client.mkRuntime [true; true; false] (Some 2%nat) [0; 1; 2]%nat
  /\ Client.in_flight
       (Client.run_ops Client.documented_parse Client.fixed_clock
          [start; start; start]) = [2%nat]
  /\ Client.run_ops Client.documented_parse Client.fixed_clock
       [start; start; start; Client.Abort]
     = Client.mkRuntime [true; true; true] None [0; 1; 2]%nat.
Proof. repeat split. Qed.

(** ** The health check *)

(** C10. [healthCheck] always resolves, with a boolean, and never
    rejects; the boolean is [true] exactly when the health endpoint
    answers with an OK status (200 to 299) before the 3000 ms timer
    fires, and [false] on a network error, a status that is not OK, or a
    timeout. *)
Theorem healthCheck_total (b : Client.Backend) :
  exists r : bool,
    Client.healthCheck b = Client.Resolve r
    /\ (r = true <->
        exists latency status,
          b = Client.Responds latency status
          /\ latency < 3000 /\ 200 <= status <= 299).
Proof.
  destruct b as [latency status|e|]; unfold Client.healthCheck; simpl.
  - case_bool_decide as Hl; simpl.
    + exists (Client.response_ok status). split; [reflexivity|].
      unfold Client.response_ok. rewrite bool_decide_eq_true. split.
      * intros Hs. exists latency, status. auto.
      * intros (l' & s' & [= <- <-] & _ & Hs). exact Hs.
    + exists false. split; [reflexivity|]. split; [discriminate|].
      intros (l' & s' & [= <- <-] & Hlt & _). contradiction.
  - exists false. split; [reflexivity|]. split; [discriminate|].
    intros (l' & s' & Hb & _). discriminate.
  - exists false. split; [reflexivity|]. split; [discriminate|].
    intros (l' & s' & Hb & _). discriminate.
Qed.

(** The three ways of failing, and a healthy backend. *)
Example healthCheck_cases :
  Client.healthCheck (Client.Responds 40 200) = Client.Resolve true
  /\ Client.healthCheck (Client.Responds 40 503) = Client.Resolve false
  /\ Client.healthCheck (Client.Responds 3000 200) = Client.Resolve false
  /\ Client.healthCheck
       (Client.Unreachable (Client.mkError "TypeError" "Failed to fetch"))
     = Client.Resolve false
  /\ Client.healthCheck Client.Silent = Client.Resolve false.
Proof. repeat split. Qed.

(** ** The keyword queue *)
Section KeywordQueueProofs.
Import Agent KeywordQueue.

Lemma known_after_enqueue k k' s :
  normalize k' = normalize k -> known k' (enqueue k s) = true.
Proof.
  intros Hn. unfold enqueue. destruct (known k s) eqn:Hk.
  - unfold known in *. rewrite Hn. exact Hk.
  - unfold known. apply bool_decide_eq_true_2. simpl.
    rewrite Hn, !fmap_app, !elem_of_app. right. right.
    simpl. left.
Qed.

Lemma enqueue_again k k' s :
  normalize k' = normalize k -> enqueue k' (enqueue k s) = enqueue k s.
Proof.
  intros Hn. unfold enqueue at 1. rewrite (known_after_enqueue k k' s Hn).
  reflexivity.
Qed.

Lemma enqueue_known k s : known k s = true -> enqueue k s = s.
Proof. intros H. unfold enqueue. rewrite H. reflexivity. Qed.

Lemma queue_inv_new tid command : queue_inv (new_state tid command).
Proof. split; [constructor|]. exists []. reflexivity. Qed.

Lemma queue_inv_enqueue k s : queue_inv s -> queue_inv (enqueue k s).
Proof.
  intros [Hnd [served Hs]]. unfold enqueue.
  destruct (known k s) eqn:Hk; [split; eauto|].
  apply bool_decide_eq_false_1 in Hk.
  rewrite fmap_app, elem_of_app in Hk.
  split; simpl.
  - rewrite fmap_app. apply NoDup_app. split; [exact Hnd|]. split.
    + intros x Hx Hx'. simpl in Hx'. apply list_elem_of_singleton in Hx'.
      subst x. apply Hk. left. exact Hx.
    + apply NoDup_singleton.
  - exists served. rewrite Hs, app_assoc. reflexivity.
Qed.

Lemma queue_inv_dequeue s : queue_inv s -> queue_inv (dequeue s).
Proof.
  intros [Hnd [served Hs]]. unfold dequeue.
  destruct (pending_searches s) as [|k rest] eqn:Hq.
  { split; [exact Hnd|]. exists served. rewrite Hq. exact Hs. }
  split; simpl; [exact Hnd|].
  exists (served ++ [k]). rewrite Hs, <- app_assoc. reflexivity.
Qed.

Lemma queue_inv_apply_ops ops : forall s,
  queue_inv s -> queue_inv (apply_ops s ops).
Proof.
  induction ops as [|op ops IH]; intros s Hs; [exact Hs|].
  simpl. apply IH. destruct op; [apply queue_inv_enqueue|apply queue_inv_dequeue];
    exact Hs.
Qed.

Lemma queue_inv_pending_NoDup s :
  queue_inv s -> NoDup (normalize <$> pending_searches s).
Proof.
  intros [Hnd [served Hs]]. rewrite Hs, fmap_app in Hnd.
  apply NoDup_app in Hnd. apply Hnd.
Qed.

(** C5. The keyword queue has set semantics under the comparison of
    normal forms: enqueueing a keyword twice, in any spelling that differs
    only by case and white space, leaves the state as after the first
    time; after any sequence of discoveries and dequeues from a new task
    the queue and the seen keywords hold no two entries with the same
    normal form; and a keyword already seen, queued or already served, is
    not enqueued again. *)
Theorem keyword_queue_set_semantics :
  (forall k s, enqueue k (enqueue k s) = enqueue k s)
  /\ (forall k k' s,
        normalize k' = normalize k -> enqueue k' (enqueue k s) = enqueue k s)
  /\ (forall tid command ops,
        NoDup (normalize <$>
                 pending_searches (apply_ops (new_state tid command) ops))
        /\ NoDup (normalize <$>
                    discovered_keywords (apply_ops (new_state tid command) ops)))
  /\ (forall tid command ops k,
        normalize k
        ∈ normalize <$>
            discovered_keywords (apply_ops (new_state tid command) ops) ->
        enqueue k (apply_ops (new_state tid command) ops)
        = apply_ops (new_state tid command) ops).
Proof.
  split; [intros k s; apply enqueue_again; reflexivity|].
  split; [exact enqueue_again|].
  split.
  - intros tid command ops.
    pose proof (queue_inv_apply_ops ops _ (queue_inv_new tid command)) as Hinv.
    split; [apply queue_inv_pending_NoDup; exact Hinv|apply Hinv].
  - intros tid command ops k Hk. apply enqueue_known.
    unfold known. apply bool_decide_eq_true_2.
    rewrite fmap_app, elem_of_app. left. exact Hk.
Qed.

End KeywordQueueProofs.

(** Re-discovering a keyword in another spelling, and after it was served. *)
Example rediscovery_is_ignored :
  KeywordQueue.normalize "  DeepSeek   R1 " = "deepseek r1"
  /\ Agent.pending_searches
       (KeywordQueue.apply_ops (Agent.new_state "task_001" "Monitor X")
          [KeywordQueue.Discover "DeepSeek R1";
           KeywordQueue.Discover "deepseek  r1";
           KeywordQueue.Discover "Kimi";
           KeywordQueue.Dequeue;
           KeywordQueue.Discover " DEEPSEEK R1"])
     = ["Kimi"].
Proof. split; vm_compute; reflexivity. Qed.

(** ** The streaming client *)
Section StreamProofs.
Import Client.

Variable time_of_day : option json -> string.

(** A payload with a truthy [step_id] is handed to [onThought], unless
    [thoughtToLog] throws on it. *)
Lemma dispatch_thought h data parsed :
  truthy (get "step_id" parsed) = true ->
  thoughtToLog_throws parsed = false ->
  dispatch time_of_day h data parsed
  = [OnThought (thoughtToLog time_of_day parsed)].
Proof.
  intros H Ht. unfold dispatch, thoughtToLog_call. rewrite H, Ht.
  destruct parsed; try reflexivity. discriminate H.
Qed.

(** [H] says that a call which is an [onComplete] call belongs to a list
    that holds no call or one call of another kind. *)
Ltac not_this_call H :=
  first [ apply list_elem_of_singleton in H; subst; discriminate
        | apply elem_of_nil in H; contradiction ].

(** [onComplete] is called only for a payload without [step_id] whose
    [task_id] is truthy and whose [status] is the string [completed]. *)
Lemma dispatch_complete h data parsed c :
  c ∈ dispatch time_of_day h data parsed ->
  is_onComplete c = true ->
  truthy (get "step_id" parsed) = false
  /\ truthy (get "task_id" parsed) = true
  /\ get "status" parsed = Some (JStr "completed")
  /\ has_onComplete h = true.
Proof.
  unfold dispatch. intros Hin Hc.
  assert (Hnn : parsed <> JNull) by (intros ->; not_this_call Hin).
  assert (Hin' :
    c ∈ (if truthy (get "step_id" parsed) then
           match thoughtToLog_call time_of_day parsed with
           | Resolve log => [OnThought log]
           | Reject _ => [ConsoleWarn data]
           end
         else if truthy (get "task_id" parsed)
                 && strict_eq_string (get "status" parsed) "completed" then
           if has_onComplete h then
             [OnComplete (get "task_id" parsed)
                (if truthy (get "total_tokens" parsed)
                 then get "total_tokens" parsed else Some (JNum 0))
                (get "status" parsed)]
           else []
         else if truthy (get "error" parsed) then
           if has_onError h then
             if converts_value (get "error" parsed)
             then [OnError (to_string_value (get "error" parsed))]
             else [ConsoleWarn data]
           else []
         else []))
    by (destruct parsed; try exact Hin; contradiction).
  clear Hin Hnn.
  destruct (truthy (get "step_id" parsed));
    [destruct (thoughtToLog_call time_of_day parsed); not_this_call Hin'|].
  assert (Herr : c ∈ (if truthy (get "error" parsed) then
                        if has_onError h then
                          if converts_value (get "error" parsed)
                          then [OnError (to_string_value (get "error" parsed))]
                          else [ConsoleWarn data]
                        else []
                      else []) -> False).
  { intros He. destruct (truthy (get "error" parsed));
      [destruct (has_onError h);
       [destruct (converts_value (get "error" parsed))|]|];
      not_this_call He. }
  destruct (truthy (get "task_id" parsed)); simpl in Hin'.
  - unfold strict_eq_string in Hin'.
    destruct (get "status" parsed) as [[]|] eqn:Hst;
      try (exfalso; exact (Herr Hin')).
    destruct (String.eqb s "completed") eqn:Heq.
    + apply String.eqb_eq in Heq. subst s.
      destruct (has_onComplete h); [auto|not_this_call Hin'].
    + exfalso. exact (Herr Hin').
  - exfalso. exact (Herr Hin').
Qed.

End StreamProofs.

(** C2 on the documented stream. The five thought events reach
    [onThought], in order; the terminal [complete] event of the API
    design, which carries the task id, the item count and the total
    tokens and no [status], is parsed and then dropped: [onComplete] is
    not called.  A terminal [failed] event carrying the task id, the
    error kind and a message is dropped the same way: [onError] is not
    called. *)
Theorem documented_complete_event_not_delivered :
  Client.documented_run
  = Client.OnThought
    <$> (Client.thoughtToLog Client.fixed_clock <$> Client.documented_thoughts)
  /\ Client.documented_parse (Client.render Client.documented_complete)
     = Some Client.documented_complete
  /\ Client.dispatch Client.fixed_clock Client.all_handlers
       (Client.render Client.documented_complete) Client.documented_complete
     = []
  /\ Client.failed_run = Client.documented_run
  /\ Client.dispatch Client.fixed_clock Client.all_handlers
       (Client.render Client.failed_event) Client.failed_event
     = [].
Proof. repeat split; vm_compute; reflexivity. Qed.

(** With a [status] field added to the documented [complete] payload the
    same stream does reach [onComplete], once. *)
Example complete_event_with_status :
  let payload :=
    Client.JObj [("task_id", Client.JStr "task_001");
                 ("intelligence_count", Client.JNum 15);
                 ("total_tokens", Client.JNum 2500);
                 ("status", Client.JStr "completed")] in
  List.filter Client.is_onComplete
    (snd (Client.executeWithStream (Client.parse_among [payload])
            Client.fixed_clock Client.all_handlers
            (Client.Response true 200 "OK"
               (Some (Client.stream_body "complete" payload)))
            Client.fresh))
  = [Client.OnComplete (Some (Client.JStr "task_001"))
       (Some (Client.JNum 2500)) (Some (Client.JStr "completed"))].
Proof. vm_compute. reflexivity. Qed.

(** * Further properties of the code *)

(** ** The orchestrator: phases, recovery and the step counter *)
Section OrchestratorFurther.
Import Agent.

Variable _plan : AgentState -> string -> Outcome.
Variable _execute_step : AgentState -> Outcome.
Variable _expand_search : AgentState -> string -> Outcome.
Variable _critique : AgentState -> Outcome.
Variable _synthesize : AgentState -> Outcome.
Variable _recover : AgentState -> Exception -> Outcome.

Hypothesis execute_frame : forall s,
  current_step (out_state (_execute_step s)) = current_step s
  /\ max_steps (out_state (_execute_step s)) = max_steps s.
Hypothesis expand_frame : forall s k,
  current_step (out_state (_expand_search s k)) = current_step s
  /\ max_steps (out_state (_expand_search s k)) = max_steps s.
Hypothesis plan_frame : forall s c,
  current_step (out_state (_plan s c)) = current_step s.

Abbreviation body2 := (loop_body _execute_step _expand_search).
Abbreviation loop2 := (run_loop _execute_step _expand_search).
Abbreviation run2 :=
  (run _plan _execute_step _expand_search _critique _synthesize _recover).

Lemma body_calls_in_loop s :
  Forall (fun c => is_loop_call c = true) (body_calls (body2 s)).
Proof.
  unfold loop_body.
  destruct (out_raised (_execute_step _)); simpl;
    [repeat constructor|].
  destruct (pending_searches (out_state (_execute_step _))); simpl;
    repeat constructor.
Qed.

(** Inside the loop only [_execute_step], [pop] and [_expand_search]
    happen. *)
Lemma loop_calls_in_loop n : forall s r,
  loop2 n s = Some r ->
  Forall (fun c => is_loop_call c = true) (loop_calls r).
Proof.
  induction n as [|n IH]; intros s r; simpl.
  - case_bool_decide; [discriminate|]. intros [= <-]. constructor.
  - case_bool_decide; [|intros [= <-]; constructor].
    pose proof (body_calls_in_loop s) as Hb.
    destruct (body_exit (body2 s)).
    + destruct (loop2 n (body_state (body2 s))) as [r'|] eqn:Hr;
        [|discriminate].
      intros [= <-]. simpl. apply Forall_app. split; [exact Hb|].
      exact (IH _ _ Hr).
    + intros [= <-]. exact Hb.
    + intros [= <-]. exact Hb.
Qed.


(** The [except Exception] clause on the state [s]: for what was raised,
    the calls it makes and what leaves [run]. *)
Inductive Handled (s : AgentState)
  : BaseException -> list Call -> option BaseException -> Prop :=
| Recovers e :
    Handled s (IsException e) [CallRecover s e] (out_raised (_recover s e))
| Propagates class_name :
    Handled s (NotException class_name) [] (Some (NotException class_name)).

(** How a run ends after a loop that left the state [sl] without an
    exception: the calls made and what leaves [run]. *)
Inductive RunEnding (sl : AgentState)
  : list Call -> option BaseException -> Prop :=
| EndsCritiqueRaised e h out :
    out_raised (_critique sl) = Some e ->
    Handled (out_state (_critique sl)) e h out ->
    RunEnding sl (CallCritique sl :: h) out
| EndsSynthesizeRaised e h out :
    out_raised (_critique sl) = None ->
    out_raised (_synthesize (out_state (_critique sl))) = Some e ->
    Handled (out_state (_synthesize (out_state (_critique sl)))) e h out ->
    RunEnding sl
      (CallCritique sl :: CallSynthesize (out_state (_critique sl)) :: h) out
| EndsCompleted :
    out_raised (_critique sl) = None ->
    out_raised (_synthesize (out_state (_critique sl))) = None ->
    RunEnding sl [CallCritique sl; CallSynthesize (out_state (_critique sl))]
      None.

(** How a run ends after the loop result [l]. *)
Definition AfterLoop (l : LoopResult) (ending : list Call)
    (out : option BaseException) : Prop :=
  match loop_exit l with
  | Raised e => Handled (loop_state l) e ending out
  | _ => RunEnding (loop_state l) ending out
  end.

Lemma recovering_handled s steps calls e :
  Handled s e (handler_calls s e)
    (run_raised (recovering _recover s steps calls e)).
Proof. destruct e; constructor. Qed.

(** A run terminates; its calls are those of planning, of the loop and of
    an ending. *)
Lemma run_shape (tid command : string) :
  let s0 := new_state tid command in
  let p := _plan s0 command in
  let M := max_steps (out_state p) in
  exists res,
    run2 (Z.to_nat M) tid command = Some res
    /\ ((exists e ending,
           out_raised p = Some e
           /\ run_calls res = CallPlan s0 :: ending
           /\ Handled (out_state p) e ending (run_raised res))
        \/ (out_raised p = None
            /\ exists l ending,
                 loop2 (Z.to_nat M) (out_state p) = Some l
                 /\ run_calls res = CallPlan s0 :: loop_calls l ++ ending
                 /\ AfterLoop l ending (run_raised res))).
Proof.
  intros s0 p M.
  destruct (out_raised p) as [e|] eqn:Hp.
  - eexists. split; [unfold run; fold s0; fold p; rewrite Hp; reflexivity|].
    left. exists e, (handler_calls (out_state p) e).
    split; [reflexivity|]. split; [apply recovering_calls|].
    apply recovering_handled.
  - destruct (loop_spec _execute_step _expand_search execute_frame expand_frame
                (Z.to_nat M) (out_state p))
      as (l & Hl & _).
    { unfold M, p, s0. rewrite (budget_after_plan _plan plan_frame). lia. }
    assert (Hshape : exists res ending,
              run2 (Z.to_nat M) tid command = Some res
              /\ run_calls res = CallPlan s0 :: loop_calls l ++ ending
              /\ AfterLoop l ending (run_raised res)).
    { unfold run, AfterLoop. fold s0. fold p. rewrite Hp, Hl.
      destruct (loop_exit l) as [| |e] eqn:Hexit.
      1, 2:
        destruct (out_raised (_critique (loop_state l))) as [e|] eqn:Hc;
        [|destruct (out_raised (_synthesize (out_state (_critique (loop_state l)))))
            as [e|] eqn:Hy];
        eexists; eexists; (split; [reflexivity|]);
        rewrite ?recovering_calls; simpl;
        rewrite <- ?app_assoc; simpl;
        (split; [reflexivity|]);
        first [ eapply EndsCritiqueRaised;
                [exact Hc|apply recovering_handled]
              | eapply EndsSynthesizeRaised;
                [exact Hc|exact Hy|apply recovering_handled]
              | apply EndsCompleted; assumption ].
      eexists; eexists. split; [reflexivity|].
      rewrite recovering_calls. simpl.
      split; [reflexivity|]. apply recovering_handled. }
    destruct Hshape as (res & ending & Hrun & Hcalls & Hend).
    exists res. split; [exact Hrun|]. right. split; [reflexivity|].
    exists l, ending. auto.
Qed.


Lemma count_zero_of_forall f (l : list Call) :
  (forall c, c ∈ l -> f c = false) -> count_calls f l = O.
Proof.
  induction l as [|x l IH]; intros H; simpl; [reflexivity|].
  rewrite (H x) by left. apply IH. intros c Hc. apply H. right. exact Hc.
Qed.




Lemma body_execute_arg s s' :
  CallExecute s' ∈ body_calls (body2 s) ->
  s' = set_current_step (current_step s + 1) s.
Proof.
  unfold loop_body.
  destruct (out_raised (_execute_step _)); simpl.
  - intros H. apply list_elem_of_singleton in H. congruence.
  - destruct (pending_searches (out_state (_execute_step _))); simpl;
      rewrite ?elem_of_cons, elem_of_nil; intros H; destruct_or!;
      try discriminate; try contradiction; congruence.
Qed.

(** The step counter along the loop: it counts the [_execute_step] calls,
    stays within the budget, and every state handed to [_execute_step]
    carries a counter between the old value plus one and the budget. *)
Lemma loop_counter n : forall s,
  (budget s <= n)%nat ->
  exists r,
    loop2 n s = Some r
    /\ current_step (loop_state r)
       = current_step s + Z.of_nat (count_calls is_execute (loop_calls r))
    /\ current_step (loop_state r) <= Z.max (current_step s) (max_steps s)
    /\ max_steps (loop_state r) = max_steps s
    /\ (forall s', CallExecute s' ∈ loop_calls r ->
          current_step s < current_step s' <= max_steps s
          /\ max_steps s' = max_steps s).
Proof.
  induction n as [|n IH]; intros s Hb.
  - simpl. rewrite bool_decide_eq_false_2 by (unfold budget in Hb; lia).
    eexists; split; [reflexivity|]. simpl.
    repeat split; try lia; apply elem_of_nil in H; contradiction.
  - simpl. destruct (bool_decide (current_step s < max_steps s)) eqn:Hlt.
    + apply bool_decide_eq_true_1 in Hlt.
      destruct (body_counters _execute_step _expand_search
                  execute_frame expand_frame s) as [Hc Hm].
      destruct (body_calls_shape _execute_step _expand_search s)
        as (He & _).
      assert (Hargs : forall s', CallExecute s' ∈ body_calls (body2 s) ->
                current_step s < current_step s' <= max_steps s
                /\ max_steps s' = max_steps s).
      { intros s' Hin. rewrite (body_execute_arg _ _ Hin). simpl. lia. }
      destruct (body_exit (body2 s)) eqn:Hexit.
      * destruct (IH (body_state (body2 s))) as (r & Hr & Q1 & Q2 & Q3 & Q4).
        { unfold budget in *. rewrite Hc, Hm. lia. }
        rewrite Hr. eexists; split; [reflexivity|]. simpl.
        rewrite count_calls_app, He, Q1, Hc. rewrite Hc, Hm in Q2.
        repeat split; try lia; try congruence.
        all: apply elem_of_app in H; destruct H as [H|H];
          [apply Hargs in H; lia
          |apply Q4 in H; rewrite Hc, Hm in H; lia].
      * eexists; split; [reflexivity|]. simpl. rewrite He, Hc.
        repeat split; try lia; try congruence; apply Hargs in H; lia.
      * eexists; split; [reflexivity|]. simpl. rewrite He, Hc.
        repeat split; try lia; try congruence; apply Hargs in H; lia.
    + apply bool_decide_eq_false_1 in Hlt.
      eexists; split; [reflexivity|]. simpl.
      repeat split; try lia; apply elem_of_nil in H; contradiction.
Qed.

Lemma handled_calls s e h out c :
  Handled s e h out -> c ∈ h ->
  is_loop_call c = false /\ is_critique c = false.
Proof.
  intros Hh Hin. destruct Hh.
  - apply list_elem_of_singleton in Hin. subst c. split; reflexivity.
  - apply elem_of_nil in Hin. contradiction.
Qed.

Lemma ending_calls l ending out c :
  AfterLoop l ending out -> c ∈ ending ->
  is_loop_call c = false
  /\ (is_critique c = true -> c = CallCritique (loop_state l)).
Proof.
  unfold AfterLoop. intros Hend Hin.
  assert (Hr : RunEnding (loop_state l) ending out ->
               is_loop_call c = false
               /\ (is_critique c = true -> c = CallCritique (loop_state l))).
  { intros Hr. destruct Hr as [e h out Hc Hh|e h out Hc Hy Hh|Hc Hy];
      rewrite !elem_of_cons in Hin; destruct_or!; subst;
      try (split; [reflexivity|]; first [reflexivity|discriminate]);
      try (destruct (handled_calls _ _ _ _ _ Hh Hin) as [H1 H2];
           split; [exact H1|rewrite H2; discriminate]).
    apply elem_of_nil in Hin. contradiction. }
  destruct (loop_exit l); [exact (Hr Hend)|exact (Hr Hend)|].
  destruct (handled_calls _ _ _ _ _ Hend Hin) as [H1 H2].
  split; [exact H1|rewrite H2; discriminate].
Qed.

(** X2. The step counter never exceeds the budget. In every run, each
    state handed to [_execute_step] carries a step counter between 1 and
    [max_steps], and the state handed to [_critique] carries a counter
    equal to the number of [_execute_step] calls made, at most
    [max_steps]. *)
Theorem step_counter_within_budget (tid command : string) :
  let s0 := new_state tid command in
  let M := max_steps (out_state (_plan s0 command)) in
  exists res,
    run2 (Z.to_nat M) tid command = Some res
    /\ (forall s, CallExecute s ∈ run_calls res ->
          1 <= current_step s <= M /\ max_steps s = M)
    /\ (forall s, CallCritique s ∈ run_calls res ->
          current_step s
          = Z.of_nat (count_calls is_execute (run_calls res))
          /\ 0 <= current_step s <= Z.max 0 M).
Proof.
  intros s0 M.
  destruct (run_shape tid command)
    as (res & Hrun & [(e & ending & Hp & Hcalls & Hh)|Hloop]).
  - exists res. split; [exact Hrun|]. rewrite Hcalls.
    split; intros s Hin; rewrite elem_of_cons in Hin;
      destruct Hin as [Hin|Hin]; try discriminate;
      destruct (handled_calls _ _ _ _ _ Hh Hin) as [H1 H2]; discriminate.
  - destruct Hloop as (Hp & l & ending & Hl & Hcalls & Hend).
    destruct (loop_counter (Z.to_nat M) (out_state (_plan s0 command)))
      as (l' & Hl' & Q1 & Q2 & Q3 & Q4).
    { unfold M, s0. rewrite (budget_after_plan _plan plan_frame). lia. }
    assert (Heq : Some l = Some l') by exact (eq_trans (eq_sym Hl) Hl').
    injection Heq as <-. clear Hl'.
    pose proof (loop_calls_in_loop _ _ _ Hl) as Hmid.
    assert (H0 : current_step (out_state (_plan s0 command)) = 0)
      by (rewrite plan_frame; reflexivity).
    rewrite H0 in Q1, Q2, Q4.
    assert (Hcount : count_calls is_execute (run_calls res)
                     = count_calls is_execute (loop_calls l)).
    { rewrite Hcalls. simpl. rewrite count_calls_app.
      assert (Hz : count_calls is_execute ending = O).
      { apply count_zero_of_forall. intros c Hin.
        destruct (ending_calls _ _ _ _ Hend Hin) as [Hf _].
        unfold is_loop_call in Hf. destruct (is_execute c); [discriminate|].
        reflexivity. }
      lia. }
    exists res. split; [exact Hrun|]. rewrite Hcount. rewrite Hcalls.
    split; intros s Hin; rewrite elem_of_cons, elem_of_app in Hin;
      destruct Hin as [Hin|[Hin|Hin]]; try discriminate.
    + apply Q4 in Hin. fold M in Hin. lia.
    + destruct (ending_calls _ _ _ _ Hend Hin) as [Hf _]. discriminate.
    + rewrite Forall_forall in Hmid. specialize (Hmid _ Hin). discriminate.
    + destruct (ending_calls _ _ _ _ Hend Hin) as [_ Hc].
      injection (Hc eq_refl) as ->. fold M in Q2. lia.
Qed.

(** X3. A run without keywords executes once. If [_plan] did not raise,
    the budget allows one step, and the first [_execute_step] call
    returns with an empty queue, the loop breaks there: the run makes
    exactly that one [_execute_step] call and no expansion, whatever the
    budget, and goes on to [_critique] on the state that call left; what
    follows is an ending of a run, the handing of an [Exception] to
    [_recover] or the passing of anything else included. *)
Theorem no_keyword_single_execute (tid command : string) (fuel : nat) :
  let s0 := new_state tid command in
  let p := _plan s0 command in
  let s1 := set_current_step (current_step (out_state p) + 1) (out_state p) in
  out_raised p = None ->
  current_step (out_state p) < max_steps (out_state p) ->
  out_raised (_execute_step s1) = None ->
  pending_searches (out_state (_execute_step s1)) = [] ->
  (0 < fuel)%nat ->
  exists res ending,
    run2 fuel tid command = Some res
    /\ run_calls res = [CallPlan s0; CallExecute s1] ++ ending
    /\ count_calls is_execute (run_calls res) = 1%nat
    /\ count_calls is_pop (run_calls res) = O
    /\ count_calls is_expand (run_calls res) = O
    /\ RunEnding (out_state (_execute_step s1)) ending (run_raised res).
Proof.
  intros s0 p s1 Hp Hlt Hx Hq Hfuel.
  destruct fuel as [|fuel]; [lia|].
  unfold run. fold s0. fold p. rewrite Hp. simpl.
  rewrite bool_decide_eq_true_2 by exact Hlt.
  unfold loop_body. fold s1. rewrite Hx, Hq. simpl.
  destruct (out_raised (_critique (out_state (_execute_step s1))))
    as [e|] eqn:Hc;
    [|destruct (out_raised (_synthesize
                  (out_state (_critique (out_state (_execute_step s1))))))
        as [e|] eqn:Hy];
    eexists; eexists; (split; [reflexivity|]);
    rewrite ?recovering_calls; simpl;
    (split; [reflexivity|]);
    try (destruct e; simpl);
    (split; [reflexivity|]); (split; [reflexivity|]);
    (split; [reflexivity|]);
    first [ eapply EndsCritiqueRaised; [exact Hc|constructor]
          | eapply EndsSynthesizeRaised; [exact Hc|exact Hy|constructor]
          | apply EndsCompleted; assumption ].
Qed.

End OrchestratorFurther.


(** The step counter at the concrete step executor. *)
Lemma step_counter_within_budget_witness :
  exists res,
    Agent.run Agent.demo_plan Agent.demo_execute Agent.demo_expand
      Agent.demo_critique Agent.demo_synthesize Agent.demo_recover
      2 "task_001" "Monitor X" = Some res
    /\ (forall s, Agent.CallExecute s ∈ Agent.run_calls res ->
          1 <= Agent.current_step s <= 2 /\ Agent.max_steps s = 2).
Proof.
  destruct demo_frames as (He & Hx & Hp).
  destruct (step_counter_within_budget Agent.demo_plan Agent.demo_execute
              Agent.demo_expand Agent.demo_critique Agent.demo_synthesize
              Agent.demo_recover He Hx Hp "task_001" "Monitor X")
    as (res & Hrun & Hexec & _).
  exists res. split; [exact Hrun|exact Hexec].
Defined.

(** A run whose planner queues nothing, with the default budget of ten. *)
Lemma no_keyword_single_execute_witness :
  exists res (ending : list Agent.Call),
    Agent.run Agent.quiet_plan Agent.demo_execute Agent.demo_expand
      Agent.demo_critique Agent.demo_synthesize Agent.demo_recover
      10 "task_002" "Monitor X" = Some res
    /\ length (Agent.run_calls res) = (2 + length ending)%nat.
Proof.
  destruct (no_keyword_single_execute Agent.quiet_plan Agent.demo_execute
              Agent.demo_expand Agent.demo_critique Agent.demo_synthesize
              Agent.demo_recover "task_002" "Monitor X" 10)
    as (res & ending & Hrun & Hcalls & _).
  - reflexivity.
  - simpl. lia.
  - reflexivity.
  - reflexivity.
  - lia.
  - exists res, ending. split; [exact Hrun|]. rewrite Hcalls. reflexivity.
Defined.

(** ** The crawler's retry loop: which attempt decides *)
Section CrawlerFurther.
Import Crawler.

Lemma sleeps_app l1 l2 : sleeps (l1 ++ l2) = sleeps l1 ++ sleeps l2.
Proof. apply omap_app. Qed.

Lemma marked_app l1 l2 : marked (l1 ++ l2) = marked l1 ++ marked l2.
Proof. apply omap_app. Qed.

(** The [try] block never sleeps, and marks its proxy for a 403 answer
    only. *)
Lemma try_effects_quiet attempt proxy a :
  sleeps (try_effects attempt proxy a) = []
  /\ marked (try_effects attempt proxy a)
     = if is_403 a then [proxy] else [].
Proof.
  destruct a; simpl; try (split; reflexivity).
  case_bool_decide; split; reflexivity.
Qed.

Lemma requests_S w attempt n :
  requests w attempt (S n)
  = ((if requested (outcome_at w attempt) then 1 else 0)
     + requests w (S attempt) n)%nat.
Proof.
  unfold requests. simpl. rewrite filter_cons.
  destruct (requested (outcome_at w attempt)); case_decide; try congruence;
    reflexivity.
Qed.

Lemma marks_S w attempt n :
  marks w attempt (S n)
  = (if is_403 (outcome_at w attempt) then [proxy_at w attempt] else [])
    ++ marks w (S attempt) n.
Proof.
  unfold marks. simpl. rewrite filter_cons.
  destruct (is_403 (outcome_at w attempt)); case_decide; try congruence;
    reflexivity.
Qed.

(** One rate-limited attempt: its [try] block, a sleep, and the rest of
    the loop. *)
Lemma retry_from_step w attempt remaining :
  rate_limited (outcome_at w attempt) = true ->
  fst (retry_from w attempt (S remaining))
  = fst (retry_from w (S attempt) remaining)
  /\ sleeps (snd (retry_from w attempt (S remaining)))
     = 2 ^ Z.of_nat attempt :: sleeps (snd (retry_from w (S attempt) remaining))
  /\ count_sends (snd (retry_from w attempt (S remaining)))
     = ((if requested (outcome_at w attempt) then 1 else 0)
        + count_sends (snd (retry_from w (S attempt) remaining)))%nat
  /\ marked (snd (retry_from w attempt (S remaining)))
     = (if is_403 (outcome_at w attempt) then [proxy_at w attempt] else [])
       ++ marked (snd (retry_from w (S attempt) remaining)).
Proof.
  intros Hrl. rewrite retry_from_S, Hrl. cbn [fst snd].
  destruct (try_effects_quiet attempt (proxy_at w attempt)
              (outcome_at w attempt)) as [Hs Hm].
  rewrite sleeps_app, marked_app, count_sends_app, try_effects_sends, Hs, Hm.
  split; [reflexivity|]. split; [reflexivity|]. split; reflexivity.
Qed.

(** An attempt that is not rate-limited ends the loop. *)
Lemma retry_from_decisive w attempt remaining :
  rate_limited (outcome_at w attempt) = false ->
  retry_from w attempt (S remaining)
  = (try_result (outcome_at w attempt),
     try_effects attempt (proxy_at w attempt) (outcome_at w attempt)).
Proof. intros Hrl. rewrite retry_from_S, Hrl. reflexivity. Qed.

Lemma retry_from_first_decisive w : forall k attempt remaining,
  (k < remaining)%nat ->
  (forall i, (i < k)%nat -> rate_limited (outcome_at w (attempt + i)) = true) ->
  rate_limited (outcome_at w (attempt + k)) = false ->
  fst (retry_from w attempt remaining) = try_result (outcome_at w (attempt + k))
  /\ sleeps (snd (retry_from w attempt remaining))
     = (fun i => 2 ^ Z.of_nat i) <$> seq attempt k
  /\ count_sends (snd (retry_from w attempt remaining))
     = requests w attempt (S k)
  /\ marked (snd (retry_from w attempt remaining)) = marks w attempt (S k).
Proof.
  induction k as [|k IH]; intros attempt remaining Hk Hpre Hdec.
  - destruct remaining as [|remaining]; [lia|].
    rewrite Nat.add_0_r in Hdec.
    rewrite (retry_from_decisive w attempt remaining Hdec).
    rewrite Nat.add_0_r. cbn [fst snd].
    destruct (try_effects_quiet attempt (proxy_at w attempt)
                (outcome_at w attempt)) as [Hs Hm].
    rewrite Hs, Hm, try_effects_sends, requests_S, marks_S.
    unfold requests, marks. simpl. rewrite app_nil_r, Nat.add_0_r.
    repeat split.
  - destruct remaining as [|remaining]; [lia|].
    assert (H0 : rate_limited (outcome_at w attempt) = true)
      by (rewrite <- (Nat.add_0_r attempt); apply Hpre; lia).
    destruct (retry_from_step w attempt remaining H0) as (E1 & E2 & E3 & E4).
    destruct (IH (S attempt) remaining) as (I1 & I2 & I3 & I4).
    + lia.
    + intros i Hi. replace (S attempt + i)%nat with (attempt + S i)%nat by lia.
      apply Hpre. lia.
    + replace (S attempt + k)%nat with (attempt + S k)%nat by lia. exact Hdec.
    + rewrite E1, E2, E3, E4, I1, I2, I3, I4.
      replace (S attempt + k)%nat with (attempt + S k)%nat by lia.
      rewrite (requests_S w attempt (S k)), (marks_S w attempt (S k)).
      repeat split.
Qed.

Lemma retry_from_exhausted w : forall remaining attempt,
  (forall i, (i < remaining)%nat ->
     rate_limited (outcome_at w (attempt + i)) = true) ->
  fst (retry_from w attempt remaining) = Returned None
  /\ sleeps (snd (retry_from w attempt remaining))
     = (fun i => 2 ^ Z.of_nat i) <$> seq attempt remaining
  /\ count_sends (snd (retry_from w attempt remaining))
     = requests w attempt remaining
  /\ marked (snd (retry_from w attempt remaining)) = marks w attempt remaining.
Proof.
  induction remaining as [|remaining IH]; intros attempt Hall.
  - repeat split.
  - assert (H0 : rate_limited (outcome_at w attempt) = true)
      by (rewrite <- (Nat.add_0_r attempt); apply Hall; lia).
    destruct (retry_from_step w attempt remaining H0) as (E1 & E2 & E3 & E4).
    destruct (IH (S attempt)) as (I1 & I2 & I3 & I4).
    { intros i Hi. replace (S attempt + i)%nat with (attempt + S i)%nat by lia.
      apply Hall. lia. }
    rewrite E1, E2, E3, E4, I1, I2, I3, I4, requests_S, marks_S.
    repeat split.
Qed.

(** The [try] block returns [None] for a 200 answer whose JSON document is
    [null], and for nothing else. *)
Lemma try_result_none a :
  try_result a = Returned None
  <-> exists mark_failed, a = Responded 200 (inr None) mark_failed.
Proof.
  split.
  - destruct a as [e|e|status json mark_failed]; simpl; try discriminate.
    case_bool_decide as H200.
    + subst status. destruct json as [e|[v|]]; try discriminate.
      intros _. eauto.
    + case_bool_decide; [destruct mark_failed|]; discriminate.
  - intros [mark_failed ->]. reflexivity.
Qed.

(** Either every attempt is rate-limited, or there is a first one that
    is not. *)
Lemma first_decisive_or_none w : forall remaining attempt,
  (forall i, (i < remaining)%nat ->
     rate_limited (outcome_at w (attempt + i)) = true)
  \/ exists k, (k < remaining)%nat
       /\ (forall i, (i < k)%nat ->
             rate_limited (outcome_at w (attempt + i)) = true)
       /\ rate_limited (outcome_at w (attempt + k)) = false.
Proof.
  induction remaining as [|remaining IH]; intros attempt; [left; lia|].
  destruct (rate_limited (outcome_at w attempt)) eqn:H0.
  - destruct (IH (S attempt)) as [Hall|(k & Hk & Hpre & Hdec)].
    + left. intros [|i] Hi; [rewrite Nat.add_0_r; exact H0|].
      replace (attempt + S i)%nat with (S attempt + i)%nat by lia.
      apply Hall. lia.
    + right. exists (S k). split; [lia|]. split.
      * intros [|i] Hi; [rewrite Nat.add_0_r; exact H0|].
        replace (attempt + S i)%nat with (S attempt + i)%nat by lia.
        apply Hpre. lia.
      * replace (attempt + S k)%nat with (S attempt + k)%nat by lia.
        exact Hdec.
  - right. exists O. split; [lia|]. split; [lia|].
    rewrite Nat.add_0_r. exact H0.
Qed.

Lemma total_powers n :
  total ((fun i => 2 ^ Z.of_nat i) <$> seq 0 n) = 2 ^ Z.of_nat n - 1.
Proof.
  induction n as [|n IH]; [reflexivity|].
  rewrite seq_S, fmap_app. unfold total in *. rewrite foldr_app. simpl.
  assert (Hshift : forall (l : list Z) a, foldr Z.add a l = foldr Z.add 0 l + a).
  { induction l as [|x l IHl]; intros a; simpl; [lia|]. rewrite IHl. lia. }
  rewrite Hshift, IH. rewrite Nat2Z.inj_succ, Z.pow_succ_r by lia. lia.
Qed.

(** X4. [max_retries] is a hard cap on the requests sent, and a cap of
    zero or less sends nothing: the function then returns [None] at once
    without any request. *)
Theorem retry_attempts_capped (w : World) (max_retries : Z) :
  Z.of_nat (count_sends (snd (_request_with_retry w max_retries)))
  <= Z.max 0 max_retries
  /\ (max_retries <= 0 ->
      _request_with_retry w max_retries = (Returned None, [])).
Proof.
  unfold _request_with_retry. split.
  - pose proof (retry_from_sends w (Z.to_nat max_retries) O). lia.
  - intros H. replace (Z.to_nat max_retries) with O by lia. reflexivity.
Qed.

(** X5. The function returns [None] in two cases and no other: every one
    of its [max_retries] attempts was rate-limited, or the first attempt
    that was not is a 200 answer whose JSON document is [null].  So a
    caller cannot tell the two apart.  It never raises
    [RateLimitedException], whatever the server does. *)
Theorem retry_none_iff_exhausted (w : World) (max_retries : Z) :
  (fst (_request_with_retry w max_retries) = Returned None
   <-> (forall i, (i < Z.to_nat max_retries)%nat ->
          rate_limited (outcome_at w i) = true)
       \/ exists k mark_failed,
            (k < Z.to_nat max_retries)%nat
            /\ (forall i, (i < k)%nat -> rate_limited (outcome_at w i) = true)
            /\ outcome_at w k = Responded 200 (inr None) mark_failed)
  /\ fst (_request_with_retry w max_retries) <> Raise RateLimitedException.
Proof.
  unfold _request_with_retry. split; [split|].
  - intros H.
    destruct (first_decisive_or_none w (Z.to_nat max_retries) O)
      as [Hall|(k & Hk & Hpre & Hdec)]; [left; exact Hall|].
    right.
    destruct (retry_from_first_decisive w k O _ Hk Hpre Hdec) as (H1 & _).
    rewrite H1 in H. apply try_result_none in H as [mark_failed Hk'].
    exists k, mark_failed. auto.
  - intros [Hall|(k & mark_failed & Hk & Hpre & Ha)].
    + apply (retry_from_exhausted w _ O). exact Hall.
    + assert (Hdec : rate_limited (outcome_at w (0 + k)) = false)
        by (simpl; rewrite Ha; reflexivity).
      destruct (retry_from_first_decisive w k O _ Hk Hpre Hdec) as (H1 & _).
      rewrite H1. simpl. rewrite Ha. reflexivity.
  - apply retry_from_swallows_rate_limited.
Qed.

(** X6. The first attempt that is not rate-limited decides the call. If
    attempts 0 to [k - 1] are rate-limited and attempt [k], within the
    cap, is not, the function ends the way the [try] block of attempt
    [k] ends (the decoded body for a 200, a [CrawlerException] for a
    status other than 200 and 403, the exception raised otherwise); the
    sleeps were 1, 2, ..., 2^(k-1) seconds; a request was sent for each
    of the attempts 0 to [k] that got as far as [session.request], no
    more than [k + 1]; and [mark_failed] was called once for each 403
    answer among them, with the proxy of that attempt. *)
Theorem retry_first_decisive_attempt (w : World) (max_retries : Z) (k : nat) :
  (k < Z.to_nat max_retries)%nat ->
  (forall i, (i < k)%nat -> rate_limited (outcome_at w i) = true) ->
  rate_limited (outcome_at w k) = false ->
  fst (_request_with_retry w max_retries) = try_result (outcome_at w k)
  /\ sleeps (snd (_request_with_retry w max_retries))
     = (fun i => 2 ^ Z.of_nat i) <$> seq 0 k
  /\ total (sleeps (snd (_request_with_retry w max_retries)))
     = 2 ^ Z.of_nat k - 1
  /\ count_sends (snd (_request_with_retry w max_retries))
     = length (filter (fun i => requested (outcome_at w i) = true)
                 (seq 0 (S k)))
  /\ (count_sends (snd (_request_with_retry w max_retries)) <= S k)%nat
  /\ marked (snd (_request_with_retry w max_retries))
     = proxy_at w
       <$> filter (fun i => is_403 (outcome_at w i) = true) (seq 0 (S k)).
Proof.
  intros Hk Hpre Hdec. unfold _request_with_retry.
  destruct (retry_from_first_decisive w k O (Z.to_nat max_retries) Hk Hpre Hdec)
    as (H1 & H2 & H3 & H4).
  rewrite H2, total_powers, H3, H4.
  split; [exact H1|]. split; [reflexivity|]. split; [reflexivity|].
  split; [reflexivity|]. split; [|reflexivity].
  unfold requests. etransitivity; [apply length_filter|].
  rewrite length_seq. lia.
Qed.

(** X7. When every attempt is rate-limited the function sleeps after each
    of its [max_retries] attempts, the last one included: 2^max_retries
    - 1 seconds in all, before it returns [None].  It sent a request for
    each attempt that got as far as [session.request], and so
    [max_retries] requests when every attempt was answered 403. *)
Theorem retry_exhausted_backoff (w : World) (max_retries : Z) :
  (forall i, (i < Z.to_nat max_retries)%nat ->
     rate_limited (outcome_at w i) = true) ->
  fst (_request_with_retry w max_retries) = Returned None
  /\ count_sends (snd (_request_with_retry w max_retries))
     = length (filter (fun i => requested (outcome_at w i) = true)
                 (seq 0 (Z.to_nat max_retries)))
  /\ ((forall i, (i < Z.to_nat max_retries)%nat ->
         is_403 (outcome_at w i) = true) ->
      count_sends (snd (_request_with_retry w max_retries))
      = Z.to_nat max_retries)
  /\ length (sleeps (snd (_request_with_retry w max_retries)))
     = Z.to_nat max_retries
  /\ total (sleeps (snd (_request_with_retry w max_retries)))
     = 2 ^ Z.of_nat (Z.to_nat max_retries) - 1.
Proof.
  intros Hall. unfold _request_with_retry.
  destruct (retry_from_exhausted w (Z.to_nat max_retries) O Hall)
    as (H1 & H2 & H3 & _).
  rewrite H2, total_powers, length_fmap, length_seq, H3.
  split; [exact H1|]. split; [reflexivity|]. split; [|auto].
  intros H403. unfold requests.
  assert (Hfil : forall n a,
            (forall i, (a <= i < a + n)%nat ->
               requested (outcome_at w i) = true) ->
            filter (fun i => requested (outcome_at w i) = true) (seq a n)
            = seq a n).
  { induction n as [|n IH]; intros a Hn; [reflexivity|].
    simpl. rewrite filter_cons, decide_True by (apply Hn; lia).
    rewrite IH; [reflexivity|]. intros i Hi. apply Hn. lia. }
  rewrite Hfil, length_seq; [reflexivity|].
  intros i Hi. specialize (H403 i ltac:(lia)).
  destruct (outcome_at w i); simpl in *; try discriminate. reflexivity.
Qed.

End CrawlerFurther.

Lemma retry_first_decisive_attempt_witness :
  fst (Crawler._request_with_retry Crawler.recovers_at_third 3)
  = Crawler.Returned (Some "{}")
  /\ Crawler.count_sends
       (snd (Crawler._request_with_retry Crawler.recovers_at_third 3))
     = 2%nat
  /\ Crawler.marked (snd (Crawler._request_with_retry Crawler.recovers_at_third 3))
     = ["proxy0"].
Proof.
  destruct (retry_first_decisive_attempt Crawler.recovers_at_third 3 2)
    as (H1 & _ & _ & H4 & _ & H5).
  - simpl. lia.
  - intros [|[|i]] Hi; [reflexivity|reflexivity|lia].
  - reflexivity.
  - split; [exact H1|]. split; [exact H4|exact H5].
Defined.

(** A 200 answer whose JSON document is [null]: [None] at the first
    attempt, with one request and no sleep. *)
Example null_body_returns_none :
  Crawler._request_with_retry Crawler.answers_null 3
  = (Crawler.Returned None, [Crawler.Send 0 "proxy0"]).
Proof. vm_compute. reflexivity. Qed.

Lemma retry_exhausted_backoff_witness :
  Crawler.total
    (Crawler.sleeps (snd (Crawler._request_with_retry (Crawler.always 403) 5)))
  = 31.
Proof.
  destruct (retry_exhausted_backoff (Crawler.always 403) 5)
    as (_ & _ & _ & _ & H).
  - intros i _. reflexivity.
  - exact H.
Defined.

(** ** The WeChat crawler: paging *)
Section WeChatFurther.
Import WeChat.

Variable Item : Type.
Variable _convert_time_range : string -> Exception + string.
Variable _parse_search_results : option string -> Exception + list Item.
Variable server : string -> string -> Z -> Crawler.World.

Abbreviation wloop := (search_loop Item _parse_search_results server).
Abbreviation wsearch :=
  (search Item _convert_time_range _parse_search_results server).

(** The loop ends within [limit - len(results)] turns; it requests
    consecutive pages, and what it returns extends what it had. *)
Lemma search_loop_spec query time_param limit : forall fuel results page,
  (Z.to_nat (limit - Z.of_nat (length results)) <= fuel)%nat ->
  exists t,
    wloop query time_param limit fuel results page = Some t
    /\ pages t = seqZ page (Z.of_nat (length (pages t)))
    /\ Z.of_nat (length (pages t))
       <= Z.max 0 (limit - Z.of_nat (length results))
    /\ (forall final, ended t = inr final ->
          results `prefix_of` final
          /\ (limit <= 0 -> final = results)
          /\ Z.of_nat (length (pages t))
             <= Z.of_nat (length final) - Z.of_nat (length results) + 1).
Proof.
  induction fuel as [|fuel IH]; intros results page Hfuel; simpl.
  - rewrite bool_decide_eq_false_2 by lia.
    eexists; split; [reflexivity|]. simpl. rewrite seqZ_nil by lia.
    repeat split; try lia. all: intros; simplify_eq; auto; simpl; lia.
  - case_bool_decide as Hlt.
    2:{ eexists; split; [reflexivity|]. simpl. rewrite seqZ_nil by lia.
        repeat split; try lia. all: intros; simplify_eq; auto; simpl; lia. }
    destruct (fst (Crawler._request_with_retry _ _)) as [data|e].
    2:{ eexists; split; [reflexivity|]. simpl. rewrite seqZ_cons by lia.
        rewrite seqZ_nil by lia. repeat split; try lia. all: discriminate. }
    destruct (_parse_search_results data) as [e|found].
    { eexists; split; [reflexivity|]. simpl. rewrite seqZ_cons by lia.
      rewrite seqZ_nil by lia. repeat split; try lia. all: discriminate. }
    destruct found as [|x found].
    { eexists; split; [reflexivity|]. simpl. rewrite seqZ_cons by lia.
      rewrite seqZ_nil by lia. rewrite app_nil_r.
      repeat split; try lia.
      all: intros; simplify_eq; auto; simpl; lia. }
    destruct (IH (results ++ x :: found) (page + 1)) as (t & Ht & P1 & P2 & P3).
    { rewrite length_app. simpl. lia. }
    rewrite Ht. eexists; split; [reflexivity|]. simpl.
    rewrite length_app in P2. simpl in P2.
    split.
    { rewrite (seqZ_cons page) by lia. f_equal.
      replace (Z.pred (Z.of_nat (S (length (pages t)))))
        with (Z.of_nat (length (pages t))) by lia.
      exact P1. }
    split; [lia|].
    intros final Hfinal. destruct (P3 final Hfinal) as (Q1 & Q2 & Q3).
    rewrite length_app in Q3. simpl in Q3.
    split; [exact (prefix_app_l _ _ _ Q1)|]. split; lia.
Qed.

(** X8. A WeChat search terminates and requests at most [limit] pages:
    pages 1, 2, ... in order, none at all when [limit] is not positive or
    the time range cannot be converted, and never more pages than it
    found hits, plus one. *)
Theorem wechat_search_pages (query time_range : string) (limit : Z) :
  exists t : Trace (CrawlResult Item),
    search Item _convert_time_range _parse_search_results server
      (Z.to_nat limit) query time_range limit = Some t
    /\ pages t = seqZ 1 (Z.of_nat (length (pages t)))
    /\ Z.of_nat (length (pages t)) <= Z.max 0 limit
    /\ ((limit <= 0 \/ exists e, _convert_time_range time_range = inl e) ->
        pages t = [])
    /\ (forall r, ended t = inr r ->
          Z.of_nat (length (pages t)) <= total_found r + 1).
Proof.
  unfold search.
  destruct (_convert_time_range time_range) as [e|time_param].
  { eexists; split; [reflexivity|]. simpl. rewrite seqZ_nil by lia.
    repeat split; try lia. discriminate. }
  destruct (search_loop_spec query time_param limit (Z.to_nat limit) [] 1)
    as (t & Ht & P1 & P2 & P3).
  { simpl. lia. }
  rewrite Ht. eexists; split; [reflexivity|]. simpl in *.
  split; [exact P1|]. split; [lia|]. split.
  - intros [Hle|[e He]]; [|discriminate].
    destruct (pages t); [reflexivity|]. simpl in P2. lia.
  - intros r Hr. destruct (ended t) as [e|final]; [discriminate|].
    injection Hr as <-. simpl.
    destruct (P3 final eq_refl) as (_ & _ & Q3). simpl in Q3. lia.
Qed.

(** What the loop collected: the hits of the pages it requested, in
    order, after what it had; every page but the last had a hit, and the
    loop was left on a page without a hit or with [limit] hits or more
    in hand. *)
Lemma search_loop_collected query time_param limit : forall fuel results page t final,
  wloop query time_param limit fuel results page = Some t ->
  ended t = inr final ->
  final
  = results ++ collect Item _parse_search_results server query time_param
                 (pages t)
  /\ Forall (fun p => exists found,
               page_hits Item _parse_search_results server query time_param p
               = inr found)
            (pages t)
  /\ (limit <= Z.of_nat (length final)
      \/ exists p, last (pages t) = Some p
           /\ page_hits Item _parse_search_results server query time_param p
              = inr []).
Proof.
  induction fuel as [|fuel IH]; intros results page t final; simpl.
  - case_bool_decide as Hlt; [discriminate|].
    intros [= <-] [= <-]. simpl. rewrite app_nil_r.
    split; [reflexivity|]. split; [constructor|]. left. lia.
  - case_bool_decide as Hlt.
    2:{ intros [= <-] [= <-]. simpl. rewrite app_nil_r.
        split; [reflexivity|]. split; [constructor|]. left. lia. }
    unfold collect, page_hits in *.
    destruct (fst (Crawler._request_with_retry _ _)) as [data|e] eqn:Hreq;
      [|intros [= <-]; discriminate].
    destruct (_parse_search_results data) as [e|found] eqn:Hparse;
      [intros [= <-]; discriminate|].
    destruct found as [|x found].
    { intros [= <-] [= <-]. simpl. rewrite Hreq, Hparse.
      split; [reflexivity|].
      split; [constructor; [rewrite Hreq, Hparse; eauto|constructor]|].
      right. exists page. rewrite Hreq, Hparse. auto. }
    destruct (wloop query time_param limit fuel (results ++ x :: found)
                (page + 1)) as [t'|] eqn:Ht'; [|discriminate].
    intros [= <-] Hfinal. simpl in Hfinal.
    destruct (IH _ _ _ _ Ht' Hfinal) as (Q1 & Q2 & Q3).
    simpl. rewrite Hreq, Hparse. split; [|split].
    + rewrite Q1, <- app_assoc. reflexivity.
    + constructor; [rewrite Hreq, Hparse; eauto|exact Q2].
    + destruct Q3 as [Q3|(p & Hp & Q3)]; [left; exact Q3|].
      right. exists p. split; [|exact Q3].
      destruct (pages t'); [discriminate|exact Hp].
Qed.

(** X9. The result of a WeChat search. The hits collected are those
    parsed from the pages requested, in page order; the result holds the
    first [limit] of them, [total_found] is their number, not that of
    the site, and [has_more] is true exactly when more than [limit] were
    collected, which for a limit that is not negative means that hits
    were cut off.  The search stopped on a page without a hit or with
    [limit] hits or more in hand.  A negative limit gives no hit, a
    total of zero, and [has_more] true all the same. *)
Theorem wechat_search_result (query time_range : string) (limit : Z)
    (fuel : nat) (t : Trace (CrawlResult Item)) (r : CrawlResult Item) :
  wsearch fuel query time_range limit = Some t ->
  ended t = inr r ->
  platform r = "wechat"
  /\ Z.of_nat (length (items r)) = Z.min (total_found r) (Z.max 0 limit)
  /\ (has_more r = true <-> limit < total_found r)
  /\ (0 <= limit ->
      (has_more r = true <-> Z.of_nat (length (items r)) < total_found r))
  /\ (limit < 0 ->
      items r = [] /\ total_found r = 0 /\ has_more r = true)
  /\ exists time_param,
       _convert_time_range time_range = inr time_param
       /\ let collected :=
            collect Item _parse_search_results server query time_param
              (pages t) in
          total_found r = Z.of_nat (length collected)
          /\ items r = slice_to limit collected
          /\ items r `prefix_of` collected
          /\ (has_more r = false -> items r = collected)
          /\ Forall (fun p => exists found,
                       page_hits Item _parse_search_results server
                         query time_param p = inr found)
                    (pages t)
          /\ (limit <= total_found r
              \/ exists p, last (pages t) = Some p
                   /\ page_hits Item _parse_search_results server
                        query time_param p = inr []).
Proof.
  unfold search. intros Hs Hr.
  destruct (_convert_time_range time_range) as [e|time_param].
  { injection Hs as <-. discriminate. }
  destruct (wloop query time_param limit fuel [] 1) as [tl|] eqn:Hl;
    [|discriminate].
  injection Hs as <-. simpl in Hr.
  destruct (ended tl) as [e|collected] eqn:He; [discriminate|].
  injection Hr as <-. simpl.
  destruct (search_loop_collected _ _ _ _ _ _ _ _ Hl He) as (Hcol & Hall & Hstop).
  simpl in Hcol.
  assert (Hneg : limit <= 0 -> collected = []).
  { intros Hle. clear - Hl He Hle. destruct fuel; simpl in Hl;
      rewrite bool_decide_eq_false_2 in Hl by (simpl; lia);
      injection Hl as <-; simpl in He; congruence. }
  assert (Hitems : Z.of_nat (length (slice_to limit collected))
                   = Z.min (Z.of_nat (length collected)) (Z.max 0 limit)).
  { unfold slice_to. case_bool_decide.
    - rewrite length_take. lia.
    - rewrite Hneg by lia. simpl. lia. }
  split; [reflexivity|]. split; [exact Hitems|].
  split; [rewrite bool_decide_eq_true; reflexivity|].
  split; [intros Hpos; rewrite bool_decide_eq_true, Hitems; lia|].
  split.
  { intros Hlt. rewrite Hneg by lia. unfold slice_to.
    rewrite bool_decide_eq_false_2 by lia. simpl.
    rewrite bool_decide_eq_true_2 by lia. auto. }
  exists time_param. split; [reflexivity|]. rewrite <- Hcol.
  split; [reflexivity|]. split; [reflexivity|]. split.
  { unfold slice_to. case_bool_decide; apply prefix_take. }
  split.
  { intros Hm. apply bool_decide_eq_false_1 in Hm.
    unfold slice_to. case_bool_decide.
    + apply take_ge. lia.
    + rewrite Hneg by lia. reflexivity. }
  split; [exact Hall|exact Hstop].
Qed.

(** X10. Rate limiting is not reported by a search. When every attempt
    for the first page is rate-limited, [_request_with_retry] returns
    [None] and the search hands [None] to [_parse_search_results]: it
    raises what the parser raises, and with a parser that finds no hit in
    [None] it returns an empty result, [has_more] false, after that one
    page. *)
Theorem wechat_search_rate_limited (query time_range time_param : string)
    (limit : Z) (fuel : nat) :
  0 < limit -> (0 < fuel)%nat ->
  _convert_time_range time_range = inr time_param ->
  (forall i, (i < 3)%nat ->
     Crawler.rate_limited
       (Crawler.outcome_at (server query time_param 1) i) = true) ->
  (forall e, _parse_search_results None = inl e ->
     wsearch fuel query time_range limit = Some (mkTrace [1] (inl e)))
  /\ (_parse_search_results None = inr [] ->
      wsearch fuel query time_range limit
      = Some (mkTrace [1] (inr (mkCrawlResult Item "wechat" [] 0 false)))).
Proof.
  intros Hlimit Hfuel Hconv Hrl.
  assert (Hnone : fst (Crawler._request_with_retry (server query time_param 1)
                         Crawler.default_max_retries)
                  = Crawler.Returned None)
    by (apply (retry_from_exhausted (server query time_param 1) 3 O); exact Hrl).
  destruct fuel as [|fuel]; [lia|].
  unfold search. rewrite Hconv. simpl.
  rewrite bool_decide_eq_true_2 by lia. rewrite Hnone.
  split.
  - intros e ->. reflexivity.
  - intros ->. simpl. unfold slice_to.
    rewrite bool_decide_eq_true_2 by lia.
    rewrite bool_decide_eq_false_2 by lia. rewrite take_nil. reflexivity.
Qed.

End WeChatFurther.

(** Seven hits, three to a page, and a limit of five: two pages are
    read, six hits collected and five returned. *)
Lemma wechat_search_result_witness :
  let r := WeChat.mkCrawlResult nat "wechat" [1; 2; 3; 1; 2]%nat 6 true in
  WeChat.search nat WeChat.demo_convert WeChat.demo_parse WeChat.demo_server
    5 "DeepSeek" "7d" 5 = Some (WeChat.mkTrace [1; 2] (inr r))
  /\ Z.of_nat (length (WeChat.items r))
     = Z.min (WeChat.total_found r) (Z.max 0 5).
Proof.
  intros r.
  assert (Hs : WeChat.search nat WeChat.demo_convert WeChat.demo_parse
                 WeChat.demo_server 5 "DeepSeek" "7d" 5
               = Some (WeChat.mkTrace [1; 2] (inr r)))
    by (vm_compute; reflexivity).
  split; [exact Hs|].
  apply (wechat_search_result nat WeChat.demo_convert WeChat.demo_parse
           WeChat.demo_server "DeepSeek" "7d" 5 5 _ r Hs eq_refl).
Defined.

(** A server that answers 403 to every request. *)
Lemma wechat_search_rate_limited_witness :
  WeChat.search nat WeChat.demo_convert WeChat.demo_parse
    (fun _ _ _ => Crawler.always 403) 5 "DeepSeek" "7d" 5
  = Some (WeChat.mkTrace [1]
            (inr (WeChat.mkCrawlResult nat "wechat" [] 0 false))).
Proof.
  apply (wechat_search_rate_limited nat WeChat.demo_convert WeChat.demo_parse
           (fun _ _ _ => Crawler.always 403) "DeepSeek" "7d" "7d" 5 5).
  - lia.
  - lia.
  - reflexivity.
  - intros i _. reflexivity.
  - reflexivity.
Defined.

(** ** The proxy pool *)
Section ProxyPoolFurther.
Import Stdlib.QArith.Qcanon.
Import ProxyPool.
Local Open Scope Z_scope.

(** [mark_failed] counts one failure, for its proxy only. *)
Lemma mark_failed_failures proxy p r :
  failures proxy (mark_failed p r)
  = failures proxy r + (if bool_decide (p = proxy) then 1 else 0).
Proof.
  unfold mark_failed, failures, hincrby.
  assert (H : (<[p := default 0 (proxy_failed r !! p) + 1]> (proxy_failed r))
              !! proxy
              = if bool_decide (p = proxy)
                then Some (default 0 (proxy_failed r !! proxy) + 1)
                else proxy_failed r !! proxy).
  { case_bool_decide as Hp.
    - subst p. apply lookup_insert_eq.
    - apply lookup_insert_ne. exact Hp. }
  destruct (bool_decide (5 < _)); simpl; rewrite H;
    case_bool_decide; simpl; lia.
Qed.


Lemma failures_apply_op op proxy r :
  failures proxy (apply_op r op) = failures proxy r + count_failed proxy [op].
Proof.
  destruct op as [p|p]; simpl.
  - rewrite mark_failed_failures. lia.
  - unfold failures. simpl. lia.
Qed.

(** X12. Failure counts are never reset. After any sequence of
    [mark_failed] and [mark_success] calls, on any proxies, the failure
    count of a proxy is its initial count plus the number of
    [mark_failed] calls for it: successes do not lower it.  A
    [mark_success], though, always leaves its proxy in the pool, even one
    whose count is beyond 5. *)
Theorem failures_never_reset (ops : list PoolOp) (proxy : string) (r : Redis) :
  failures proxy (apply_ops r ops) = failures proxy r + count_failed proxy ops
  /\ is_Some (proxy_pool (mark_success proxy (apply_ops r ops)) !! proxy).
Proof.
  split.
  - revert r. induction ops as [|op ops IH]; intros r; simpl; [lia|].
    unfold apply_ops in IH. rewrite IH, failures_apply_op.
    destruct op as [p|p]; simpl; lia.
  - unfold mark_success, zincrby. simpl. rewrite lookup_insert_eq. eauto.
Qed.

Lemma first_of_best l :
  match first_of l with
  | None => l = []
  | Some x => x ∈ l /\ forall y, y ∈ l -> (snd y <= snd x)%Qc
  end.
Proof.
  induction l as [|a l IH]; simpl; [reflexivity|].
  destruct (first_of l) as [b|].
  - destruct IH as [Hin Hmax]. unfold outranks.
    destruct (decide (snd b < snd a)%Qc) as [Hlt|Hnlt].
    + split; [left|]. intros y Hy. apply elem_of_cons in Hy as [->|Hy].
      * apply Qcle_refl.
      * apply Qcle_trans with (snd b); [auto|]. apply Qclt_le_weak. exact Hlt.
    + assert (Hle : (snd a <= snd b)%Qc) by (apply Qcnot_lt_le; exact Hnlt).
      destruct (decide (snd a = snd b)) as [Heq|Hne].
      * destruct (String.ltb (fst b) (fst a)).
        -- split; [left|]. intros y Hy. apply elem_of_cons in Hy as [->|Hy].
           ++ apply Qcle_refl.
           ++ rewrite Heq. auto.
        -- split; [right; exact Hin|].
           intros y Hy. apply elem_of_cons in Hy as [->|Hy]; auto.
      * split; [right; exact Hin|].
        intros y Hy. apply elem_of_cons in Hy as [->|Hy]; auto.
  - subst l. split; [left|]. intros y Hy.
    apply list_elem_of_singleton in Hy as ->. apply Qcle_refl.
Qed.

(** X13. [get] hands out a best proxy. With a pool that is not empty it
    returns a member of the pool whose score no other member exceeds; it
    falls back on [_fetch_new_proxy] exactly when the pool is empty. *)
Theorem get_returns_best (_fetch_new_proxy : string) (r : Redis) :
  (proxy_pool r = ∅ -> get _fetch_new_proxy r = _fetch_new_proxy)
  /\ (proxy_pool r <> ∅ ->
      exists score,
        proxy_pool r !! get _fetch_new_proxy r = Some score
        /\ forall other score',
             proxy_pool r !! other = Some score' -> (score' <= score)%Qc).
Proof.
  unfold get, zrevrange_first.
  pose proof (first_of_best (map_to_list (proxy_pool r))) as H.
  split.
  - intros ->. rewrite map_to_list_empty. reflexivity.
  - intros Hne. destruct (first_of (map_to_list (proxy_pool r))) as [[p s]|].
    + destruct H as [Hin Hmax]. exists s. split.
      * apply elem_of_map_to_list. exact Hin.
      * intros other s' Ho. apply (Hmax (other, s')).
        apply elem_of_map_to_list. exact Ho.
    + exfalso. apply Hne. apply map_to_list_empty_iff. exact H.
Qed.

End ProxyPoolFurther.

(** A proxy with five failures on record fails once more, and leaves the
    pool. *)
Example sixth_failure_evicts :
  let r := ProxyPool.mkRedis {[ "proxy1" := 1%Qc ]} {[ "proxy1" := 5 ]} in
  ProxyPool.failures "proxy1" (ProxyPool.mark_failed "proxy1" r) = 6
  /\ ~ is_Some (ProxyPool.proxy_pool (ProxyPool.mark_failed "proxy1" r)
                !! "proxy1").
Proof.
  intros r. split; [vm_compute; reflexivity|].
  intros [q Hq]. vm_compute in Hq. discriminate Hq.
Qed.

(** ** The streaming client: lines, chunks and callbacks *)
Section StreamFurther.
Import Client.

Variable JSON_parse : string -> option json.
Variable time_of_day : option json -> string.

Abbreviation line_calls := (process_line JSON_parse time_of_day).
Abbreviation reading := (read_loop JSON_parse time_of_day).

Lemma append_nil_r s : s +:+ "" = s.
Proof.
  induction s as [|c s IH]; [reflexivity|].
  change (String c (s +:+ "") = String c s). rewrite IH. reflexivity.
Qed.

Lemma append_assoc s1 s2 s3 : (s1 +:+ s2) +:+ s3 = s1 +:+ (s2 +:+ s3).
Proof.
  induction s1 as [|c s1 IH]; [reflexivity|].
  change (String c ((s1 +:+ s2) +:+ s3) = String c (s1 +:+ (s2 +:+ s3))).
  rewrite IH. reflexivity.
Qed.

Lemma split_lines_nonempty s : split_lines s <> [].
Proof.
  destruct s as [|c s]; simpl; [discriminate|].
  case_bool_decide; [discriminate|].
  destruct (split_lines s); discriminate.
Qed.

Lemma removelast_cons2 {A} (x : A) l : l <> [] -> removelast (x :: l) = x :: removelast l.
Proof. destruct l; [congruence|reflexivity]. Qed.

Lemma last_cons2 {A} (x : A) l : l <> [] -> last (x :: l) = last l.
Proof. destruct l; [congruence|reflexivity]. Qed.

(** Splitting a text put together from two: the lines of the first but
    its last, then the lines of that last piece followed by the second. *)
Lemma split_lines_app s1 s2 :
  split_lines (s1 +:+ s2)
  = removelast (split_lines s1)
    ++ split_lines (default "" (last (split_lines s1)) +:+ s2).
Proof.
  induction s1 as [|c s1 IH]; [reflexivity|].
  change (String c s1 +:+ s2) with (String c (s1 +:+ s2)).
  simpl split_lines. pose proof (split_lines_nonempty s1) as Hne.
  case_bool_decide as Hc.
  - rewrite IH, removelast_cons2, last_cons2 by exact Hne. reflexivity.
  - rewrite IH. destruct (split_lines s1) as [|l0 ls0] eqn:Hs1; [congruence|].
    destruct ls0 as [|l1 ls1].
    + simpl. change (String c l0 +:+ s2) with (String c (l0 +:+ s2)).
      simpl split_lines. rewrite bool_decide_eq_false_2 by exact Hc.
      reflexivity.
    + rewrite (removelast_cons2 l0) by discriminate.
      rewrite (removelast_cons2 (String c l0)) by discriminate.
      rewrite !last_cons2 by discriminate. reflexivity.
Qed.

(** The piece kept in the buffer holds no line feed. *)
Lemma last_line_one_line s : one_line (default "" (last (split_lines s))).
Proof.
  unfold one_line. induction s as [|c s IH]; [reflexivity|].
  simpl split_lines. pose proof (split_lines_nonempty s) as Hne.
  case_bool_decide as Hc.
  - rewrite last_cons2 by exact Hne. exact IH.
  - destruct (split_lines s) as [|l0 ls0]; [congruence|].
    destruct ls0 as [|l1 ls1].
    + simpl in *. rewrite bool_decide_eq_false_2 by exact Hc. rewrite IH.
      reflexivity.
    + rewrite last_cons2 by discriminate. rewrite last_cons2 in IH by discriminate.
      exact IH.
Qed.

Lemma one_line_app a b : one_line a -> one_line b -> one_line (a +:+ b).
Proof.
  unfold one_line. induction a as [|c a IH]; intros Ha Hb; [exact Hb|].
  change (String c a +:+ b) with (String c (a +:+ b)).
  simpl in *. case_bool_decide as Hc.
  - injection Ha as H1 _. discriminate H1.
  - destruct (split_lines a) as [|l ls] eqn:Hs;
      [exfalso; exact (split_lines_nonempty a Hs)|].
    injection Ha as -> ->. rewrite IH by auto. reflexivity.
Qed.

Lemma reading_spec h : forall pieces buffer,
  one_line buffer ->
  reading h buffer pieces
  = flat_map (line_calls h) (removelast (split_lines (buffer +:+ join pieces))).
Proof.
  induction pieces as [|value rest IH]; intros buffer Hb.
  - simpl. rewrite append_nil_r, Hb. reflexivity.
  - simpl reading. rewrite IH by apply last_line_one_line.
    simpl join. rewrite <- append_assoc, (split_lines_app (buffer +:+ value)).
    rewrite removelast_app by apply split_lines_nonempty.
    rewrite flat_map_app. reflexivity.
Qed.

Lemma join_app l1 l2 : join (l1 ++ l2) = join l1 +:+ join l2.
Proof.
  induction l1 as [|x l1 IH]; [reflexivity|].
  simpl. rewrite IH, append_assoc. reflexivity.
Qed.

(** X14. The calls made for a body depend only on its text, not on how
    the network cut it into chunks: they are the calls for the complete
    lines of the whole text, in order. *)
Theorem reading_ignores_chunking (h : Handlers) (chunks1 chunks2 : list string) :
  reading h "" chunks1
  = flat_map (line_calls h) (removelast (split_lines (join chunks1)))
  /\ (join chunks1 = join chunks2 ->
      reading h "" chunks1 = reading h "" chunks2).
Proof.
  assert (H : forall chunks,
            reading h "" chunks
            = flat_map (line_calls h) (removelast (split_lines (join chunks))))
    by (intros chunks; apply (reading_spec h chunks ""); reflexivity).
  split; [apply H|]. intros Heq. rewrite !H, Heq. reflexivity.
Qed.

(** X15. A last line that is not ended by a line feed is never
    processed: text without a line feed at the end of the body, a whole
    data line included, changes nothing in the calls made. *)
Theorem unterminated_line_dropped (h : Handlers) (chunks : list string)
    (tail : string) :
  one_line tail ->
  reading h "" (chunks ++ [tail]) = reading h "" chunks.
Proof.
  intros Htail.
  rewrite !(reading_spec h _ "") by reflexivity.
  change ("" +:+ join (chunks ++ [tail])) with (join (chunks ++ [tail])).
  change ("" +:+ join chunks) with (join chunks).
  rewrite join_app. simpl join. rewrite append_nil_r, split_lines_app.
  f_equal.
  assert (Hone : one_line (default "" (last (split_lines (join chunks))) +:+ tail)).
  { apply one_line_app; [apply last_line_one_line|exact Htail]. }
  rewrite Hone. change [?x] with ([] ++ [x]) at 1.
  rewrite <- (app_nil_r (removelast (split_lines (join chunks)))) at 2.
  rewrite app_assoc, removelast_last, app_nil_r. reflexivity.
Qed.

Lemma dispatch_sound h data parsed :
  Forall (sound_call h) (dispatch time_of_day h data parsed).
Proof.
  unfold dispatch.
  assert (Hmain : Forall (sound_call h)
    (if truthy (get "step_id" parsed) then
       match thoughtToLog_call time_of_day parsed with
       | Resolve log => [OnThought log]
       | Reject _ => [ConsoleWarn data]
       end
     else if truthy (get "task_id" parsed)
             && strict_eq_string (get "status" parsed) "completed" then
       if has_onComplete h then
         [OnComplete (get "task_id" parsed)
            (if truthy (get "total_tokens" parsed)
             then get "total_tokens" parsed else Some (JNum 0))
            (get "status" parsed)]
       else []
     else if truthy (get "error" parsed) then
       if has_onError h then
         if converts_value (get "error" parsed)
         then [OnError (to_string_value (get "error" parsed))]
         else [ConsoleWarn data]
       else []
     else [])).
  { assert (Herr : Forall (sound_call h)
              (if truthy (get "error" parsed) then
                 if has_onError h then
                   if converts_value (get "error" parsed)
                   then [OnError (to_string_value (get "error" parsed))]
                   else [ConsoleWarn data]
                 else []
               else [])).
    { destruct (truthy (get "error" parsed)); [|constructor].
      destruct (has_onError h) eqn:He; [|constructor].
      destruct (converts_value (get "error" parsed));
        repeat constructor. exact He. }
    destruct (truthy (get "step_id" parsed)) eqn:Hs.
    - unfold thoughtToLog_call.
      destruct (thoughtToLog_throws parsed); repeat constructor. exact Hs.
    - destruct (truthy (get "task_id" parsed)) eqn:Ht; simpl;
        [|exact Herr].
      unfold strict_eq_string.
      destruct (get "status" parsed) as [[]|] eqn:Hst; try exact Herr.
      destruct (String.eqb s "completed") eqn:Heq; [|exact Herr].
      apply String.eqb_eq in Heq. subst s.
      destruct (has_onComplete h) eqn:Hc; [|constructor].
      constructor; [|constructor]. simpl.
      split; [exact Hc|]. split; [exact Ht|]. split; [reflexivity|].
      destruct (truthy (get "total_tokens" parsed)) eqn:Htok;
        [left; exact Htok|right; reflexivity]. }
  destruct parsed; try exact Hmain. repeat constructor.
Qed.

Lemma line_calls_sound h line : Forall (sound_call h) (line_calls h line).
Proof.
  unfold process_line.
  destruct (String.prefix "event:" line); [constructor|].
  destruct (String.prefix "data:" line); [|constructor].
  destruct (String.eqb _ ""); [constructor|].
  destruct (JSON_parse _); [apply dispatch_sound|repeat constructor].
Qed.

Lemma on_catch_sound h e : Forall (sound_call h) (on_catch h e).
Proof.
  unfold on_catch. destruct (String.eqb _ _); [repeat constructor|].
  destruct (has_onError h) eqn:He; repeat constructor. exact He.
Qed.

(** X16. What the callbacks can rely on, for every answer to the
    request. [onThought] only ever gets a log whose id is a truthy
    [step_id]; [onComplete] only a result whose [task_id] is truthy,
    whose [status] is the string [completed] and whose [total_tokens] is
    truthy or the number 0; and a callback that was not passed is never
    called. *)
Theorem stream_calls_sound (h : Handlers) (f : FetchResult) (rt : Runtime) :
  Forall (sound_call h)
         (snd (executeWithStream JSON_parse time_of_day h f rt)).
Proof.
  unfold executeWithStream, stream_calls. cbn [snd].
  destruct f as [e|ok status statusText body]; [apply on_catch_sound|].
  destruct ok; simpl; [|apply on_catch_sound].
  destruct body as [b|]; [|apply on_catch_sound].
  apply Forall_app. split.
  - rewrite (reading_spec h (chunks b) "") by reflexivity.
    induction (removelast _) as [|l ls IH]; simpl; [constructor|].
    apply Forall_app. split; [apply line_calls_sound|exact IH].
  - destruct (ending b); [constructor|apply on_catch_sound].
Qed.

Lemma map_thoughts_spec steps :
  match map_thoughts time_of_day steps with
  | Resolve logs =>
      Forall (fun t => thoughtToLog_throws t = false) steps
      /\ logs = (thoughtToLog time_of_day <$> steps)
  | Reject e =>
      ~ Forall (fun t => thoughtToLog_throws t = false) steps
      /\ e = type_error
  end.
Proof.
  induction steps as [|t steps IH]; simpl.
  - split; [constructor|reflexivity].
  - unfold thoughtToLog_call. destruct (thoughtToLog_throws t) eqn:Ht; simpl.
    + split; [|reflexivity]. intros H. inversion H; subst. congruence.
    + destruct (map_thoughts time_of_day steps) as [logs|e]; simpl.
      * destruct IH as [Hall ->]. split; [|reflexivity].
        constructor; [exact Ht|exact Hall].
      * destruct IH as [Hall ->]. split; [|reflexivity].
        intros H. inversion H; subst. contradiction.
Qed.

Lemma executeSync_not_null status statusText data :
  data <> JNull ->
  executeSync time_of_day (SyncResponse true status statusText (Some data))
  = match get "thought_chain" data with
    | Some (JArr steps) =>
        and_then (map_thoughts time_of_day steps)
          (fun logs =>
             Resolve (mkSyncResult (get "status" data) logs
                        (get "total_steps" data) (get "total_tokens" data)))
    | _ => Reject type_error
    end.
Proof. intros H. destruct data; [congruence|reflexivity..]. Qed.

Lemma executeSync_ok_spec status statusText data r :
  data <> JNull ->
  executeSync time_of_day (SyncResponse true status statusText (Some data))
  = Resolve r
  <-> exists steps,
        get "thought_chain" data = Some (JArr steps)
        /\ Forall (fun t => thoughtToLog_throws t = false) steps
        /\ r = mkSyncResult (get "status" data)
                 (thoughtToLog time_of_day <$> steps)
                 (get "total_steps" data) (get "total_tokens" data).
Proof.
  intros Hnn. rewrite (executeSync_not_null _ _ _ Hnn).
  destruct (get "thought_chain" data) as [[]|];
    try (split; [discriminate|intros (?&H&_); discriminate]).
  pose proof (map_thoughts_spec items) as Hm.
  destruct (map_thoughts time_of_day items) as [logs|e]; simpl.
  - destruct Hm as [Hin ->]. split.
    + intros [= <-]. exists items. auto.
    + intros (steps & [= <-] & _ & ->). reflexivity.
  - destruct Hm as [Hin _]. split; [discriminate|].
    intros (steps & [= <-] & Hn & _). contradiction.
Qed.

(** X17. [executeSync] resolves exactly when the response is OK, its
    body is JSON for a value other than [null] whose [thought_chain] is
    an array, and [thoughtToLog] throws on none of its steps: none is
    [null], and none has a [phase], a truthy [timestamp] or, with a
    truthy [action], an [action] or [thought] whose conversion to a
    primitive throws.  It rejects otherwise.  When it resolves, the
    result has one log for each step of the chain of that body, in the
    same order, the log of a step carrying its [step_id] as id, its
    [observation] as details and its [progress]; and [status],
    [total_steps] and [total_tokens] are those of the body. *)
Theorem executeSync_resolves_iff (f : SyncFetch) :
  ((exists r, executeSync time_of_day f = Resolve r)
   <-> exists status statusText data steps,
         f = SyncResponse true status statusText (Some data)
         /\ data <> JNull
         /\ get "thought_chain" data = Some (JArr steps)
         /\ Forall (fun t => thoughtToLog_throws t = false) steps)
  /\ (forall r, executeSync time_of_day f = Resolve r ->
        exists status statusText data steps,
          f = SyncResponse true status statusText (Some data)
          /\ get "thought_chain" data = Some (JArr steps)
          /\ length (sync_thought_chain r) = length steps
          /\ (id <$> sync_thought_chain r) = (get "step_id" <$> steps)
          /\ (details <$> sync_thought_chain r)
             = (get "observation" <$> steps)
          /\ (progress <$> sync_thought_chain r) = (get "progress" <$> steps)
          /\ sync_status r = get "status" data
          /\ sync_total_steps r = get "total_steps" data
          /\ sync_total_tokens r = get "total_tokens" data).
Proof.
  assert (Hnull : forall status statusText,
            executeSync time_of_day
              (SyncResponse true status statusText (Some JNull))
            = Reject type_error) by reflexivity.
  split; [split|].
  - intros [r Hr].
    destruct f as [e|[] status statusText [data|]]; try discriminate Hr.
    assert (Hnn : data <> JNull) by (intros ->; rewrite Hnull in Hr; discriminate).
    apply (executeSync_ok_spec _ _ _ _ Hnn) in Hr as (steps & Hg & Hn & _).
    exists status, statusText, data, steps. auto.
  - intros (status & statusText & data & steps & -> & Hnn & Hg & Hn).
    eexists. apply (executeSync_ok_spec _ _ _ _ Hnn). exists steps. auto.
  - intros r Hr.
    destruct f as [e|[] status statusText [data|]]; try discriminate Hr.
    assert (Hnn : data <> JNull) by (intros ->; rewrite Hnull in Hr; discriminate).
    apply (executeSync_ok_spec _ _ _ _ Hnn) in Hr as (steps & Hg & Hn & ->).
    exists status, statusText, data, steps. simpl.
    rewrite length_fmap, <- !list_fmap_compose. repeat split; auto.
Qed.

End StreamFurther.

Lemma unterminated_line_dropped_witness :
  let chunks :=
    Client.chunks (Client.stream_body "complete" Client.documented_complete) in
  Client.one_line "data: late"
  /\ Client.read_loop Client.documented_parse Client.fixed_clock
       Client.all_handlers "" (chunks ++ ["data: late"])
     = Client.read_loop Client.documented_parse Client.fixed_clock
         Client.all_handlers "" chunks.
Proof.
  split; [reflexivity|].
  apply (unterminated_line_dropped Client.documented_parse Client.fixed_clock
           Client.all_handlers
           (Client.chunks
              (Client.stream_body "complete" Client.documented_complete))
           "data: late").
  reflexivity.
Defined.

(** ** Error recovery: the strategy table *)
Section ResilienceFurther.
Import Resilience.

(** X18. [get_strategy] always has a first strategy to return (the
    index never fails), and it is never the fallback crawler, which is
    listed second: the answer is the proxy switch exactly for an error
    classified as [CRAWLER_BLOCKED], and the exponential backoff for
    every other error, a captcha, a timeout and a network error
    included. *)
Theorem get_strategy_never_fallback
    (classify : Exception -> option ErrorType) (error : Exception) :
  exists s,
    get_strategy classify error = Some s
    /\ s <> FallbackCrawlerStrategy
    /\ (s = SwitchProxyStrategy <-> classify error = Some CRAWLER_BLOCKED)
    /\ (s = ExponentialBackoffStrategy
        <-> classify error <> Some CRAWLER_BLOCKED).
Proof.
  rewrite get_strategy_table.
  destruct (classify error) as [[]|]; eexists; (split; [reflexivity|]);
    (split; [discriminate|]); split; split; congruence.
Qed.

End ResilienceFurther.

(** ** The platform parsers *)
Section ParserFurther.
Import Client Parser.

Lemma py_get_dict key fallback d :
  py_get key fallback (JObj d) = Return (value_or fallback (assoc key d)).
Proof. reflexivity. Qed.

(** X19. [parse_answer] raises exactly when [data], or what it holds
    under [question] or [author], is not a [dict], a [null] included;
    what it raises is an [AttributeError], never a [KeyError]. A missing
    key is no error: the title and the author are then [None] and a
    missing count is 0, while a count that is present is passed as it
    is. *)
Theorem parse_answer_raises_iff (data : json) :
  ((exists e, parse_answer data = Raise e)
   <-> is_dict data && nested_ok "question" data && nested_ok "author" data
       = false)
  /\ (forall e, parse_answer data = Raise e -> e = AttributeError)
  /\ (forall p, parse_answer data = Return p ->
        title p = value_or JNull (get "question" data ≫= get "title")
        /\ author p = value_or JNull (get "author" data ≫= get "name")
        /\ body p = value_or JNull (get "content" data)
        /\ metrics p
           = [("voteup_count", value_or (JNum 0) (get "voteup_count" data));
              ("comment_count", value_or (JNum 0) (get "comment_count" data))]
        /\ images p = None).
Proof.
  destruct data as [| | | |items|d];
    try (split; [split; [reflexivity|intros _; eexists; reflexivity]|];
         split; [intros e [= <-]; reflexivity|intros p; discriminate]).
  unfold parse_answer, nested_ok. cbn [is_dict get andb].
  rewrite !py_get_dict. cbn [mbind PyResult_bind].
  destruct (assoc "question" d) as [[| | | |?|q]|]; cbn [value_or];
    try (split; [split; [reflexivity|intros _; eexists; reflexivity]|];
         split; [intros e [= <-]; reflexivity|intros p; discriminate]).
  all: repeat (rewrite py_get_dict; cbn [mbind PyResult_bind]).
  all: destruct (assoc "author" d) as [[| | | |?|a]|]; cbn [value_or];
    try (split; [split; [reflexivity|intros _; eexists; reflexivity]|];
         split; [intros e [= <-]; reflexivity|intros p; discriminate]).
  all: repeat (rewrite py_get_dict; cbn [mbind PyResult_bind]).
  all: cbn [mret PyResult_ret].
  all: split; [split; [intros [e He]; discriminate He|discriminate]|].
  all: split; [intros e He; discriminate He|].
  all: intros p [= <-]; repeat split; reflexivity.
Qed.


End ParserFurther.

(** ** The demo reasoning logs *)
Section GeminiFurther.
Import Gemini.

Variable Math_random : nat -> JsString.
Variable toTimeString : nat -> JsString.
Variable JSON_parse : JsString -> option value.

Abbreviation mock_logs := (generateMockLogs Math_random toTimeString).
Abbreviation entry := (entry_of Math_random toTimeString).
Abbreviation reasoning_logs :=
  (generateReasoningLogs Math_random toTimeString JSON_parse).

Lemma split_spaces_nonempty s : split_spaces s <> [].
Proof.
  destruct s as [|c s]; simpl; [discriminate|].
  case_bool_decide; [discriminate|].
  destruct (split_spaces s); discriminate.
Qed.





Lemma map_logs_spec logs : forall n,
  match map_logs Math_random toTimeString n logs with
  | (m, Client.Resolve entries) =>
      (VNull ∉ logs) /\ m = (n + length logs)%nat
      /\ entries = imap (fun i log => entry (n + i)%nat log) logs
  | (m, Client.Reject e) =>
      (VNull ∈ logs) /\ (n < m <= n + length logs)%nat
      /\ e = Client.type_error
  end.
Proof.
  induction logs as [|log logs IH]; intros n.
  - simpl. split; [apply not_elem_of_nil|]. split; [lia|reflexivity].
  - assert (Hstep :
      log <> VNull ->
      match (let '(m, r) := map_logs Math_random toTimeString (S n) logs in
             (m, Client.and_then r
                   (fun entries => Client.Resolve (entry n log :: entries))))
      with
      | (m, Client.Resolve entries) =>
          (VNull ∉ log :: logs) /\ m = (n + length (log :: logs))%nat
          /\ entries = imap (fun i log => entry (n + i)%nat log) (log :: logs)
      | (m, Client.Reject e) =>
          (VNull ∈ log :: logs) /\ (n < m <= n + length (log :: logs))%nat
          /\ e = Client.type_error
      end).
    { intros Hlog. specialize (IH (S n)).
      destruct (map_logs Math_random toTimeString (S n) logs) as [m [entries|e]];
        simpl.
      - destruct IH as (Hin & -> & ->). split.
        + rewrite not_elem_of_cons. split; [congruence|exact Hin].
        + split; [lia|]. rewrite Nat.add_0_r. f_equal.
          apply imap_ext. intros i x _. simpl. f_equal. lia.
      - destruct IH as (Hin & Hm & ->). split; [right; exact Hin|].
        split; [lia|reflexivity]. }
    destruct log; try (apply Hstep; discriminate).
    simpl. split; [left|]. split; [lia|reflexivity].
Qed.

(** X22. [generateReasoningLogs] never rejects: whatever the model
    answers, it resolves, either with the five demo logs or with one
    entry for each log of the model, stamped in order. Without a key the
    model is not asked; a rejected request gives the demo logs; an answer
    without text gives no log at all. *)
Theorem generateReasoningLogs_never_rejects (hasKey : bool) (api : ApiAnswer)
    (prompt : JsString) (n : nat) :
  (exists logs,
     reasoning_logs hasKey api prompt n = Client.Resolve logs
     /\ ((exists m, (n <= m)%nat /\ logs = mock_logs prompt m)
         \/ (hasKey = true
             /\ exists text items,
                  api = ApiResponse text
                  /\ (VNull ∉ items)
                  /\ logs = imap (fun i log => entry (n + i)%nat log) items
                  /\ ((items = [] /\ (text = None \/ text = Some []))
                      \/ exists data,
                           text ≫= JSON_parse = Some data
                           /\ get "logs" data = Some (VArr items)))))
  /\ reasoning_logs false api prompt n = Client.Resolve (mock_logs prompt n)
  /\ (forall e, reasoning_logs true (ApiRejected e) prompt n
                = Client.Resolve (mock_logs prompt n))
  /\ reasoning_logs true (ApiResponse None) prompt n = Client.Resolve [].
Proof.
  split; [|split; [reflexivity|split; [reflexivity|reflexivity]]].
  destruct hasKey; [|eexists; split; [reflexivity|left; eauto]].
  unfold generateReasoningLogs. cbn [negb].
  assert (Hmock : forall (m : nat) e,
            (n <= m)%nat ->
            exists logs,
              (let '(m, r) := (m, @Client.Reject (list LogEntry) e) in
               Client.try_catch r
                 (fun _ => Client.Resolve (mock_logs prompt m)))
              = Client.Resolve logs
              /\ ((exists m, (n <= m)%nat /\ logs = mock_logs prompt m)
                  \/ (true = true
                      /\ exists text items,
                           api = ApiResponse text
                           /\ (VNull ∉ items)
                           /\ logs = imap (fun i log => entry (n + i)%nat log)
                                       items
                           /\ ((items = [] /\ (text = None \/ text = Some []))
                               \/ exists data,
                                    text ≫= JSON_parse = Some data
                                    /\ get "logs" data = Some (VArr items))))).
  { intros m e Hm. eexists. split; [reflexivity|left; eauto]. }
  assert (Hdata : forall text data,
            api = ApiResponse text ->
            (data = VObj [(lit "logs", VArr [])]
             /\ (text = None \/ text = Some [])
             \/ text ≫= JSON_parse = Some data) ->
            exists logs,
              (let '(m, r) :=
                 match data with
                 | VNull => (n, Client.Reject Client.type_error)
                 | _ =>
                     match get "logs" data with
                     | Some (VArr logs) =>
                         map_logs Math_random toTimeString n logs
                     | _ => (n, Client.Reject Client.type_error)
                     end
                 end in
               Client.try_catch r
                 (fun _ => Client.Resolve (mock_logs prompt m)))
              = Client.Resolve logs
              /\ ((exists m, (n <= m)%nat /\ logs = mock_logs prompt m)
                  \/ (true = true
                      /\ exists text items,
                           api = ApiResponse text
                           /\ (VNull ∉ items)
                           /\ logs = imap (fun i log => entry (n + i)%nat log)
                                       items
                           /\ ((items = [] /\ (text = None \/ text = Some []))
                               \/ exists data,
                                    text ≫= JSON_parse = Some data
                                    /\ get "logs" data = Some (VArr items))))).
  { intros text data Hapi Hsrc.
    assert (Hlogs :
      exists logs,
        (let '(m, r) :=
           match get "logs" data with
           | Some (VArr logs) => map_logs Math_random toTimeString n logs
           | _ => (n, Client.Reject Client.type_error)
           end in
         Client.try_catch r (fun _ => Client.Resolve (mock_logs prompt m)))
        = Client.Resolve logs
        /\ ((exists m, (n <= m)%nat /\ logs = mock_logs prompt m)
            \/ (true = true
                /\ exists text items,
                     api = ApiResponse text
                     /\ (VNull ∉ items)
                     /\ logs = imap (fun i log => entry (n + i)%nat log) items
                     /\ ((items = [] /\ (text = None \/ text = Some []))
                         \/ exists data,
                              text ≫= JSON_parse = Some data
                              /\ get "logs" data = Some (VArr items))))).
    { destruct (get "logs" data) as [[| | | |items|]|] eqn:Hget;
        try (apply (Hmock n); lia).
      pose proof (map_logs_spec items n) as Hm.
      destruct (map_logs Math_random toTimeString n items) as [m [entries|e]].
      - destruct Hm as (Hin & -> & ->). eexists. split; [reflexivity|].
        right. split; [reflexivity|]. exists text, items.
        split; [exact Hapi|]. split; [exact Hin|]. split; [reflexivity|].
        destruct Hsrc as [[-> Htext]|Hparse].
        + left. injection Hget as <-. split; [reflexivity|exact Htext].
        + right. exists data. split; [exact Hparse|exact Hget].
      - destruct Hm as (_ & Hm & _). apply (Hmock m). lia. }
    destruct data; exact Hlogs. }
  destruct api as [e|text]; [apply (Hmock n); lia|].
  unfold ask_model.
  destruct text as [[|c t]|].
  - apply (Hdata (Some []) (VObj [(lit "logs", VArr [])])); auto.
  - destruct (JSON_parse (c :: t)) as [data|] eqn:Hp;
      [|apply (Hmock n); lia].
    apply (Hdata (Some (c :: t)) data); auto.
  - apply (Hdata None (VObj [(lit "logs", VArr [])])); auto.
Qed.

End GeminiFurther.
